(** * Hierarchical, length-adaptive text reduction (generate-summaries.py)

    A shallow embedding of [determine_max_length], [summarize_in_chunks]
    and [summarize_text], with the summarization pipeline kept abstract:
    an oracle with an internal state (sampling state), a fallible answer
    and a record of every call made to it. *)

From Stdlib Require Import ZArith NArith List Bool Lia String Ascii.
Import ListNotations.
Open Scope Z_scope.

Set Implicit Arguments.

(** ** Python [str] values *)

(** A [str] is a sequence of Unicode code points. *)
Definition char := N.
Definition str := list char.

Definition py (s : string) : str :=
  List.map N_of_ascii (list_ascii_of_string s).

(** [str.isspace] on one code point, the test that [str.strip()] and
    [str.split()] use when called without argument: the ASCII table of
    CPython (TAB..CR, FS..US, SPACE) and the Unicode white space above
    it. *)
Definition isspace (c : char) : bool :=
  (((9 <=? c) && (c <=? 13)) || ((28 <=? c) && (c <=? 32))
   || (c =? 133) || (c =? 160) || (c =? 5760)
   || ((8192 <=? c) && (c <=? 8202))
   || (c =? 8232) || (c =? 8233) || (c =? 8239) || (c =? 8287)
   || (c =? 12288))%N.

Fixpoint lstrip (t : str) : str :=
  match t with
  | [] => []
  | c :: r => if isspace c then lstrip r else t
  end.

Definition rstrip (t : str) : str := rev (lstrip (rev t)).

(** [text.strip()] *)
Definition strip (t : str) : str := rstrip (lstrip t).

(** Truth value of a string or a list: [not x] is [is_empty x]. *)
Definition is_empty {A : Type} (l : list A) : bool :=
  match l with [] => true | _ => false end.

(** [text.split()]: the words are cut at runs of white space; [cur] is
    the word being read. *)
Fixpoint split_go (cur : str) (t : str) : list str :=
  match t with
  | [] => if is_empty cur then [] else [cur]
  | c :: r =>
      if isspace c
      then (if is_empty cur then split_go [] r else cur :: split_go [] r)
      else split_go (cur ++ [c]) r
  end.

Definition split (t : str) : list str := split_go [] t.

(** [sep.join(parts)] *)
Fixpoint join (sep : str) (parts : list str) : str :=
  match parts with
  | [] => []
  | [p] => p
  | p :: rest => p ++ sep ++ join sep rest
  end.

(** [len(x)] of a string or a list, as a Python integer. *)
Definition len {A : Type} (l : list A) : Z := Z.of_nat (List.length l).

(** [range(start, stop, step)]: a zero step raises ValueError. *)
Definition range_len (start stop step : Z) : Z :=
  if 0 <? step
  then (if start <? stop then (stop - start - 1) / step + 1 else 0)
  else (if stop <? start then (start - stop - 1) / (- step) + 1 else 0).

Definition range (start stop step : Z) : option (list Z) :=
  if step =? 0 then None
  else Some (List.map (fun k => start + Z.of_nat k * step)
                      (seq 0 (Z.to_nat (range_len start stop step)))).

(** Slice bounds of [text[start:stop]]: a negative index counts from the
    end, and both are clamped to [0 .. len]. *)
Definition adjust_index (n i : Z) : Z :=
  let i := if i <? 0 then i + n else i in
  if i <? 0 then 0 else if n <? i then n else i.

Definition slice (t : str) (start stop : Z) : str :=
  let lo := adjust_index (len t) start in
  let hi := adjust_index (len t) stop in
  firstn (Z.to_nat (hi - lo)) (skipn (Z.to_nat lo) t).

(** [[text[i:i+chunk_size] for i in range(0, len(text), chunk_size)]] *)
Definition text_chunks (text : str) (chunk_size : Z) : option (list str) :=
  option_map (List.map (fun i => slice text i (i + chunk_size)))
             (range 0 (len text) chunk_size).

(** ** The length planner *)

Definition determine_max_length (text : str) (default_max min_length : Z) : Z :=
  let word_count := len (split text) in
  let max_len := Z.min default_max (Z.max word_count min_length) in
  max_len.

(** The specification's word count: the number of maximal runs of
    characters that are not white space.  A run starts at each such
    character that is the first of the text or follows a white space;
    [prev_space] tells whether the previous character was one. *)
Fixpoint count_runs (prev_space : bool) (t : str) : nat :=
  match t with
  | [] => 0
  | c :: r =>
      if isspace c then count_runs true r
      else ((if prev_space then 1 else 0) + count_runs false r)%nat
  end.

Definition word_count (t : str) : Z := Z.of_nat (count_runs true t).

Definition sentinel : str := py "No content to summarize.".

(** ** The oracle and the effects of a run *)

(** One call of the summarization pipeline:
    [summarizer(text, max_length=.., min_length=.., do_sample=..)]. *)
Record call : Type := mkCall {
  call_text : str;
  call_max_length : Z;
  call_min_length : Z;
  call_do_sample : bool
}.

(** What stops a run without a summary: the pipeline raised, [range]
    refused a zero step, or the recursion went deeper than the depth the
    run was given. *)
Inductive failure : Type := OracleError | ValueError | Diverged.

Inductive outcome (A : Type) : Type :=
| Ret (a : A)
| Fail (e : failure).
Arguments Fail {A} e.

(** [ceil(a / b)] for a positive [b]. *)
Definition ceil_div (a b : Z) : Z := - ((- a) / b).

(** An oracle without state that answers [w] to every call. *)
Definition const_oracle (w : str)
  : unit -> str -> Z -> Z -> bool -> option str * unit :=
  fun _ _ _ _ _ => (Some w, tt).

(** An oracle that counts its calls: it samples from its counter when
    asked to ([do_sample = True]) and answers the three first characters
    of the text otherwise. *)
Definition counting_oracle
  : nat -> str -> Z -> Z -> bool -> option str * nat :=
  fun n t _ _ do_sample =>
    (Some (if do_sample then repeat 120%N n else firstn 3 t), S n).

(** The call the engine makes on a text [t] under the budget
    [(dm, mn)]. *)
Definition planned (dm mn : Z) (t : str) : call :=
  mkCall t (determine_max_length t dm mn) mn false.

(** The test the chunk loops apply to a chunk: white space only. *)
Definition blank (t : str) : bool := forallb isspace t.

(** The chunk of index [j] when chunks have [c] characters. *)
Definition block (c : nat) (t : str) (j : nat) : str :=
  firstn c (skipn (j * c) t).

(** ** Annotation files and folders *)

(** [s.startswith(prefix)] *)
Fixpoint startswith (s prefix : str) : bool :=
  match prefix, s with
  | [], _ => true
  | _ :: _, [] => false
  | p :: prefix', c :: s' => (c =? p)%N && startswith s' prefix'
  end.

(** [s.endswith(suffix)] *)
Definition endswith (s suffix : str) : bool :=
  startswith (rev s) (rev suffix).

(** Reading in text mode: a carriage return, alone or followed by a line
    feed, is read as one line feed. *)
Fixpoint universal_newlines (t : str) : str :=
  match t with
  | [] => []
  | c :: r =>
      if (c =? 13)%N
      then 10%N :: match r with
                   | [] => universal_newlines r
                   | d :: r' =>
                       if (d =? 10)%N then universal_newlines r'
                       else universal_newlines r
                   end
      else c :: universal_newlines r
  end.

(** [for line in f]: the lines of the text, each with its line feed,
    the last one without when the text does not end with one; [cur] is
    the line being read. *)
Fixpoint file_lines_go (cur : str) (t : str) : list str :=
  match t with
  | [] => if is_empty cur then [] else [cur]
  | c :: r =>
      if (c =? 10)%N then (cur ++ [c]) :: file_lines_go [] r
      else file_lines_go (cur ++ [c]) r
  end.

Definition file_lines (content : str) : list str :=
  file_lines_go [] (universal_newlines content).

(** The loop of [parse_annotation_file] over the lines of the file. *)
Fixpoint clean_lines (lines : list str) (cleaned_lines : list str)
  : list str :=
  match lines with
  | [] => cleaned_lines
  | line :: rest =>
      let line := strip line in
      if startswith line (py "Start:") then clean_lines rest cleaned_lines
      else if is_empty line then clean_lines rest cleaned_lines
      else clean_lines rest (cleaned_lines ++ [line])
  end.

(** [parse_annotation_file(file_path)], on the text of the file as
    decoded (undecodable bytes already replaced). *)
Definition parse_annotation_file (content : str) : str :=
  let cleaned_lines := clean_lines (file_lines content) [] in
  let cleaned_text := join (py " ") cleaned_lines in
  cleaned_text.

(** [s.replace(old, new)]: the occurrences of [old] are replaced from
    left to right, without overlap; [skip] counts the characters of an
    occurrence still to pass. *)
Fixpoint replace_go (old new : str) (skip : nat) (t : str) : str :=
  match t with
  | [] => []
  | c :: r =>
      match skip with
      | S k => replace_go old new k r
      | O =>
          if startswith t old
          then new ++ replace_go old new (List.length old - 1) r
          else c :: replace_go old new 0 r
      end
  end.

Definition replace (s old new : str) : str :=
  match old with
  | [] => new ++ flat_map (fun c => c :: new) s
  | _ => replace_go old new 0 s
  end.

(** [os.path.join(a, b)] on POSIX paths. *)
Definition path_join (a b : str) : str :=
  if startswith b (py "/") then b
  else if is_empty a || endswith a (py "/") then a ++ b
  else a ++ py "/" ++ b.

(** The file system as the folder run sees it: what exists at a path. *)
Inductive node : Type := File (content : str) | Dir.

Definition filesys : Type := list (str * node).

Fixpoint lookup (fs : filesys) (path : str) : option node :=
  match fs with
  | [] => None
  | (p, n) :: rest =>
      if list_eq_dec N.eq_dec p path then Some n else lookup rest path
  end.

(** [os.path.exists(path)] *)
Definition path_exists (fs : filesys) (path : str) : bool :=
  match lookup fs path with Some _ => true | None => false end.

(** The text of [open(path, "r")], [None] when opening raises. *)
Definition read_text (fs : filesys) (path : str) : option str :=
  match lookup fs path with Some (File c) => Some c | _ => None end.

(** What stops a folder run. *)
Inductive folder_failure : Type :=
| ReadError (path : str)
| WriteError (path : str)
| EngineFailure (e : failure).

(** A text without white space at either end. *)
Definition trimmed (t : str) : Prop :=
  lstrip t = t /\ lstrip (rev t) = rev t.

(** The lines [parse_annotation_file] keeps, once stripped. *)
Definition kept_line (line : str) : bool :=
  negb (startswith line (py "Start:")) && negb (is_empty line).

(** [b] has everything [a] has, unchanged. *)
Definition extends (a b : filesys) : Prop :=
  forall p n, lookup a p = Some n -> lookup b p = Some n.

(** An oracle that raises on every call. *)
Definition failing_oracle
  : unit -> str -> Z -> Z -> bool -> option str * unit :=
  fun s _ _ _ _ => (None, s).

(** A folder "d" with three transcripts, one of them without content
    and one of them summarized already, and a file that is not a
    transcript. *)
Definition sample_listing : list str :=
  [py "a.txt"; py "b.txt"; py "c.txt"; py "notes.md"].

Definition sample_fs : filesys :=
  [(py "d/a.txt",
    File (py "Start: 0:00:00 - End: 0:00:04" ++ [10%N]
          ++ py " hello world" ++ [10%N; 10%N]));
   (py "d/b.txt", File (py "Start: 0:00:00 - End: 0:00:02" ++ [10%N]));
   (py "d/c.txt", File (py "text c"));
   (py "d/c.summary", File (py "old"))].

(** A transcription segment as [save_annotation] (process-data.py)
    writes it: its text, and its start and end as the texts
    [str(timedelta(seconds=...))] gives for them. *)
Record segment : Type := mkSegment {
  seg_start : str;
  seg_end : str;
  seg_text : str
}.

(** What [save_annotation] writes to the annotation file, one
    [f.write(f"Start: {start_time} - End: {end_time}\n{text}\n\n")] per
    segment. *)
Definition save_annotation (segments : list segment) : str :=
  flat_map (fun seg =>
              py "Start: " ++ seg_start seg ++ py " - End: " ++ seg_end seg
              ++ [10%N] ++ seg_text seg ++ [10%N; 10%N])
           segments.

(** A text without line feed or carriage return. *)
Definition no_line_break (t : str) : bool :=
  forallb (fun c => negb (c =? 10)%N && negb (c =? 13)%N) t.

Section Engine.

(** The pipeline keeps a state of its own (the sampling state) and
    answers [None] when it raises; its answer is the ['summary_text']
    of its first result. *)
Variable St : Type.
Variable summarizer : St -> str -> Z -> Z -> bool -> option str * St.

(** A run: its outcome, the oracle's state after it, and the calls it
    made, in order. *)
Record run (A : Type) : Type := mkRun {
  res : outcome A;
  final : St;
  trace : list call
}.

Definition M (A : Type) : Type := St -> run A.

Definition ret {A} (a : A) : M A := fun s => mkRun (Ret a) s [].

Definition fail {A} (e : failure) : M A := fun s => mkRun (Fail e) s [].

Definition bind {A B} (m : M A) (k : A -> M B) : M B :=
  fun s =>
    let r := m s in
    match res r with
    | Ret a =>
        let r' := k a (final r) in
        mkRun (res r') (final r') (trace r ++ trace r')
    | Fail e => mkRun (Fail e) (final r) (trace r)
    end.

Notation "x <- m ;; k" := (bind m (fun x => k))
  (at level 100, m at next level, right associativity).

Definition lift_value {A} (o : option A) : M A :=
  match o with Some a => ret a | None => fail ValueError end.

(** [summarizer(text, max_length=.., min_length=.., do_sample=False)[0]['summary_text']] *)
Definition call_summarizer (text : str) (max_length min_length : Z) : M str :=
  fun s =>
    let (r, s') := summarizer s text max_length min_length false in
    mkRun (match r with Some y => Ret y | None => Fail OracleError end)
          s' [mkCall text max_length min_length false].

(** The loop over [text_chunks], the same in both functions:
    strip the chunk, skip it when nothing is left, else summarize it
    and append the summary to [chunk_summaries]. *)
Fixpoint chunk_loop (chunks : list str) (default_max min_length : Z)
         (chunk_summaries : list str) : M (list str) :=
  match chunks with
  | [] => ret chunk_summaries
  | chunk :: rest =>
      let chunk := strip chunk in
      if is_empty chunk
      then chunk_loop rest default_max min_length chunk_summaries
      else
        cs <- call_summarizer chunk
                (determine_max_length chunk default_max min_length)
                min_length ;;
        chunk_loop rest default_max min_length (chunk_summaries ++ [cs])
  end.

(** [fuel] bounds the depth of the recursion: a call at depth [fuel]
    that has to recurse once more gives [Fail Diverged]. *)
Fixpoint summarize_in_chunks (fuel : nat) (text : str)
         (chunk_size default_max_length min_length : Z) : M str :=
  let text := strip text in
  if is_empty text then ret sentinel
  else
    let max_length :=
      determine_max_length text default_max_length min_length in
    if len text <=? chunk_size
    then call_summarizer text max_length min_length
    else
      chunks <- lift_value (text_chunks text chunk_size) ;;
      chunk_summaries <- chunk_loop chunks default_max_length min_length [] ;;
      let combined_text := join (py " ") chunk_summaries in
      if chunk_size <? len combined_text
      then
        match fuel with
        | O => fail Diverged
        | S fuel' =>
            summarize_in_chunks fuel' combined_text chunk_size
                                default_max_length min_length
        end
      else
        let final_max_length :=
          determine_max_length combined_text default_max_length min_length in
        call_summarizer combined_text final_max_length min_length.

Definition summarize_text (fuel : nat) (text : str)
           (chunk_size intermediate_summary_length final_summary_length : Z)
  : M str :=
  let text := strip text in
  if is_empty text then ret sentinel
  else
    chunks <- lift_value (text_chunks text chunk_size) ;;
    chunk_summaries <- chunk_loop chunks intermediate_summary_length 50 [] ;;
    if is_empty chunk_summaries then ret sentinel
    else
      let combined_summary_input := join (py " ") chunk_summaries in
      summarize_in_chunks fuel combined_summary_input chunk_size
                          final_summary_length 50.

(** *** The two-pass driver as the specification words it

    Entry B: split into chunks unconditionally; for each chunk that is
    not empty once trimmed, plan its [max_length] from
    [intermediate_max] and 50 and summarize it; join the results with
    single spaces; delegate to Entry A on the combined string with
    [(chunk_size, final_max, 50)]. *)

Definition nonempty_chunks (chunks : list str) : list str :=
  filter (fun c => negb (is_empty c)) (List.map strip chunks).

Fixpoint summarize_all (texts : list str) (default_max min_length : Z)
  : M (list str) :=
  match texts with
  | [] => ret []
  | t :: rest =>
      y <- call_summarizer t (determine_max_length t default_max min_length)
             min_length ;;
      ys <- summarize_all rest default_max min_length ;;
      ret (y :: ys)
  end.

Definition reduce_two_pass (fuel : nat) (text : str)
           (chunk_size intermediate_max final_max : Z) : M str :=
  chunks <- lift_value (text_chunks (strip text) chunk_size) ;;
  summaries <- summarize_all (nonempty_chunks chunks) intermediate_max 50 ;;
  summarize_in_chunks fuel (join (py " ") summaries) chunk_size final_max 50.

(** Two runs that return the same thing after the same calls. *)
Definition same_run {A} (r1 r2 : run A) : Prop :=
  res r1 = res r2 /\ trace r1 = trace r2.

(** A string the oracle can answer without sampling. *)
Definition answer (y : str) : Prop :=
  exists s t mx mn, fst (summarizer s t mx mn false) = Some y.


(** *** The folder run *)

(** Whether [open(path, "w")] succeeds on a path where nothing exists:
    the system's answer (the directory exists, it can be written).  When
    it does, an empty file is there. *)
Variable can_create : str -> bool.

(** What [sf.write(text)] does to the file just created at [path]:
    [None] when the text is written; [Some partial] when the write raises
    (the text cannot be encoded, the device fails), [partial] being what
    the file is left with, nothing or a part of the text. *)
Variable write_error : str -> str -> option str.

(** A folder run: what stopped it, if anything; the file system, the
    oracle's state and the oracle calls at that point. *)
Record folder_run : Type := mkFolderRun {
  fres : option folder_failure;
  ffs : filesys;
  fstate : St;
  ftrace : list call
}.

(** The loop of [summarize_folder] over [txt_files] (the messages it
    prints are left out).  Writing the summary is two steps: opening
    the file, which creates it, and writing the text, which can raise
    and leave the file as it then is; both end the run when they
    fail. *)
Fixpoint summarize_files (fuel : nat) (folder_path : str)
         (txt_files : list str) (fs : filesys) (s : St) : folder_run :=
  match txt_files with
  | [] => mkFolderRun None fs s []
  | txt_file :: rest =>
      let file_path := path_join folder_path txt_file in
      let summary_file_path :=
        replace file_path (py ".txt") (py ".summary") in
      if path_exists fs summary_file_path
      then summarize_files fuel folder_path rest fs s
      else
        match read_text fs file_path with
        | None => mkFolderRun (Some (ReadError file_path)) fs s []
        | Some content =>
            let cleaned_content := parse_annotation_file content in
            if is_empty (strip cleaned_content)
            then summarize_files fuel folder_path rest fs s
            else
              let r := summarize_text fuel cleaned_content 1024 500 500 s in
              match res r with
              | Fail e =>
                  mkFolderRun (Some (EngineFailure e)) fs (final r) (trace r)
              | Ret summary =>
                  if can_create summary_file_path
                  then
                    match write_error summary_file_path summary with
                    | None =>
                        let r' :=
                          summarize_files fuel folder_path rest
                            ((summary_file_path, File summary) :: fs)
                            (final r) in
                        mkFolderRun (fres r') (ffs r') (fstate r')
                                    (trace r ++ ftrace r')
                    | Some partial =>
                        mkFolderRun (Some (WriteError summary_file_path))
                                    ((summary_file_path, File partial) :: fs)
                                    (final r) (trace r)
                    end
                  else
                    mkFolderRun (Some (WriteError summary_file_path))
                                fs (final r) (trace r)
              end
        end
  end.

(** [summarize_folder(folder_path)], [listing] being what
    [os.listdir(folder_path)] returns. *)
Definition summarize_folder (fuel : nat) (listing : list str)
           (folder_path : str) (fs : filesys) (s : St) : folder_run :=
  let txt_files := filter (fun f => endswith f (py ".txt")) listing in
  if is_empty txt_files then mkFolderRun None fs s []
  else summarize_files fuel folder_path txt_files fs s.


(** ** Strings: stripping and splitting *)

Lemma lstrip_nil_iff (t : str) : lstrip t = [] <-> forallb isspace t = true.
Proof.
  induction t as [|c r IH]; simpl.
  - tauto.
  - destruct (isspace c) eqn:E; simpl.
    + exact IH.
    + split; discriminate.
Qed.

Lemma lstrip_head (t : str) c r : lstrip t = c :: r -> isspace c = false.
Proof.
  induction t as [|a u IH]; simpl; [discriminate|].
  destruct (isspace a) eqn:E; [exact IH|].
  intros H; injection H as -> _; exact E.
Qed.

Lemma lstrip_snoc (p : str) a :
  isspace a = false -> lstrip (p ++ [a]) = lstrip p ++ [a].
Proof.
  intros Ha; induction p as [|c r IH]; simpl.
  - now rewrite Ha.
  - destruct (isspace c); [exact IH|reflexivity].
Qed.

Lemma rstrip_snoc (p : str) a : isspace a = false -> rstrip (p ++ [a]) = p ++ [a].
Proof.
  intros Ha; unfold rstrip.
  rewrite rev_unit; simpl; rewrite Ha; simpl.
  now rewrite rev_involutive.
Qed.

Lemma rstrip_cons (a : char) (u : str) :
  isspace a = false -> rstrip (a :: u) = a :: rstrip u.
Proof.
  intros Ha; unfold rstrip; simpl.
  rewrite lstrip_snoc by exact Ha.
  now rewrite rev_unit.
Qed.

Lemma forallb_lstrip (t : str) :
  forallb isspace (lstrip t) = true -> forallb isspace t = true.
Proof.
  intros H; apply lstrip_nil_iff.
  destruct (lstrip t) as [|c r] eqn:E; [reflexivity|].
  apply lstrip_head in E; simpl in H; rewrite E in H; discriminate.
Qed.

(** Whole-string white space is exactly what [strip] empties. *)
Lemma strip_nil_iff (t : str) : strip t = [] <-> forallb isspace t = true.
Proof.
  unfold strip, rstrip; split; intros H.
  - apply forallb_lstrip.
    assert (E : lstrip (rev (lstrip t)) = []).
    { destruct (lstrip (rev (lstrip t))); [reflexivity|].
      simpl in H; now apply app_eq_nil in H as [_ H]. }
    apply lstrip_nil_iff in E.
    rewrite forallb_forall in *; intros x Hx; apply E.
    now apply in_rev in Hx.
  - apply lstrip_nil_iff in H; now rewrite H.
Qed.

Lemma is_empty_true {A} (l : list A) : is_empty l = true <-> l = [].
Proof. destruct l; simpl; split; intros H; congruence. Qed.

Lemma is_empty_false {A} (l : list A) : is_empty l = false <-> l <> [].
Proof. destruct l; simpl; split; intros H; congruence. Qed.

(** A stripped string that is not empty starts with a character that is
    not white space. *)
Lemma strip_head (t : str) c r : strip t = c :: r -> isspace c = false.
Proof.
  unfold strip; destruct (lstrip t) as [|a u] eqn:E; [discriminate|].
  pose proof (lstrip_head _ E) as Ha.
  rewrite rstrip_cons by exact Ha.
  intros H; injection H as <- _; exact Ha.
Qed.

Lemma strip_cons_nonspace (a : char) (u : str) :
  isspace a = false -> strip (a :: u) = a :: rstrip u.
Proof.
  intros Ha; unfold strip; simpl; rewrite Ha.
  now apply rstrip_cons.
Qed.

(** A string whose first and last characters are not white space is
    left as it is. *)
Lemma strip_fixed (a b : char) (u : str) :
  isspace a = false -> isspace b = false ->
  strip (a :: u ++ [b]) = a :: u ++ [b].
Proof.
  intros Ha Hb; rewrite strip_cons_nonspace by exact Ha.
  now rewrite rstrip_snoc.
Qed.

Lemma split_go_length (t cur : str) :
  List.length (split_go cur t) =
  if is_empty cur then count_runs true t else S (count_runs false t).
Proof.
  revert cur; induction t as [|c r IH]; intros cur; simpl.
  - now destruct cur.
  - destruct (isspace c) eqn:E.
    + destruct cur; simpl; rewrite IH; reflexivity.
    + rewrite IH.
      assert (Hn : is_empty (cur ++ [c]) = false) by now destruct cur.
      rewrite Hn; now destruct cur.
Qed.

Lemma split_word_count (t : str) : len (split t) = word_count t.
Proof. unfold len, split, word_count; now rewrite split_go_length. Qed.

Lemma determine_max_length_le (t : str) (dm mn : Z) :
  determine_max_length t dm mn <= dm.
Proof. unfold determine_max_length; lia. Qed.

Lemma determine_max_length_ge (t : str) (dm mn : Z) :
  mn <= dm -> mn <= determine_max_length t dm mn.
Proof. unfold determine_max_length; lia. Qed.

(** ** Chunking *)

Lemma firstn_plus {A} (a b : nat) (l : list A) :
  firstn (a + b) l = firstn a l ++ firstn b (skipn a l).
Proof.
  revert l; induction a as [|a IH]; intros l; simpl; [reflexivity|].
  destruct l as [|x l]; simpl.
  - now rewrite firstn_nil.
  - now rewrite IH.
Qed.

(** The [k] first blocks of [c] characters make up the [k * c] first
    characters. *)
Lemma blocks_concat (c k : nat) (t : str) :
  List.concat (List.map (fun j => firstn c (skipn (j * c) t)) (seq 0 k))
  = firstn (k * c) t.
Proof.
  induction k as [|k IH]; [reflexivity|].
  rewrite seq_S, map_app, concat_app, IH; simpl.
  rewrite app_nil_r, (Nat.add_comm c (k * c)).
  symmetry; apply firstn_plus.
Qed.

Lemma adjust_index_nonneg (n i : Z) :
  0 <= n -> 0 <= i -> adjust_index n i = Z.min i n.
Proof.
  intros Hn Hi; unfold adjust_index.
  destruct (Z.ltb_spec i 0); [lia|].
  destruct (Z.ltb_spec i 0); [lia|].
  destruct (Z.ltb_spec n i); lia.
Qed.

Lemma slice_block (t : str) (i cs : Z) :
  0 <= i -> 0 < cs ->
  slice t i (i + cs) = firstn (Z.to_nat cs) (skipn (Z.to_nat i) t).
Proof.
  intros Hi Hcs; unfold slice.
  rewrite !adjust_index_nonneg by (unfold len; lia).
  unfold len; set (n := List.length t).
  destruct (Z.lt_ge_cases (Z.of_nat n) i).
  - rewrite !skipn_all2 by (fold n; lia).
    now rewrite !firstn_nil.
  - replace (Z.min i (Z.of_nat n)) with i by lia.
    destruct (Z.lt_ge_cases (Z.of_nat n) (i + cs)).
    + rewrite !firstn_all2; [reflexivity| |];
        rewrite length_skipn; fold n; lia.
    + f_equal; lia.
Qed.

Lemma text_chunks_pos (t : str) (cs : Z) :
  0 < cs ->
  text_chunks t cs =
  Some (List.map (block (Z.to_nat cs) t)
                 (seq 0 (Z.to_nat (range_len 0 (len t) cs)))).
Proof.
  intros Hcs; unfold text_chunks, range.
  destruct (Z.eqb_spec cs 0); [lia|]; simpl.
  rewrite map_map; f_equal; apply map_ext; intros j.
  rewrite slice_block by lia.
  unfold block; do 2 f_equal; lia.
Qed.

Lemma range_len_pos (n cs : Z) :
  0 < cs -> 0 < n ->
  let k := range_len 0 n cs in
  (k - 1) * cs < n <= k * cs /\ 0 < k.
Proof.
  intros Hcs Hn; unfold range_len.
  destruct (Z.ltb_spec 0 cs); [|lia].
  destruct (Z.ltb_spec 0 n); [|lia].
  replace (n - 0 - 1) with (n - 1) by lia.
  pose proof (Z.mul_div_le (n - 1) cs Hcs).
  pose proof (Z.mul_succ_div_gt (n - 1) cs Hcs).
  pose proof (Z.div_pos (n - 1) cs).
  simpl; nia.
Qed.

Lemma range_len_zero (cs : Z) : range_len 0 0 cs = 0.
Proof.
  unfold range_len; destruct (0 <? cs); reflexivity.
Qed.

Lemma block_length (c : nat) (t : str) (j : nat) :
  List.length (block c t j) = Nat.min c (List.length t - j * c).
Proof. unfold block; now rewrite length_firstn, length_skipn. Qed.

Lemma lstrip_length (t : str) : (List.length (lstrip t) <= List.length t)%nat.
Proof.
  induction t as [|c r IH]; simpl; [lia|].
  destruct (isspace c); simpl; lia.
Qed.

Lemma strip_length (t : str) : (List.length (strip t) <= List.length t)%nat.
Proof.
  unfold strip, rstrip; rewrite length_rev.
  etransitivity; [apply lstrip_length|].
  rewrite length_rev; apply lstrip_length.
Qed.

Lemma lstrip_idem (t : str) : lstrip (lstrip t) = lstrip t.
Proof.
  induction t as [|c r IH]; simpl; [reflexivity|].
  destruct (isspace c) eqn:E; [exact IH|].
  simpl; now rewrite E.
Qed.

Lemma strip_idem (t : str) : strip (strip t) = strip t.
Proof.
  unfold strip at 2 3.
  destruct (lstrip t) as [|a u] eqn:E; [reflexivity|].
  pose proof (lstrip_head _ E) as Ha.
  rewrite rstrip_cons by exact Ha.
  rewrite strip_cons_nonspace by exact Ha.
  f_equal; unfold rstrip.
  now rewrite rev_involutive, lstrip_idem.
Qed.


Lemma nonempty_chunks_length (chunks : list str) :
  (List.length (nonempty_chunks chunks) <= List.length chunks)%nat.
Proof.
  unfold nonempty_chunks.
  etransitivity; [apply filter_length_le|now rewrite length_map].
Qed.

Lemma text_chunks_length (t : str) (cs : Z) chunks :
  0 < cs -> t <> [] -> text_chunks t cs = Some chunks ->
  (len chunks - 1) * cs < len t <= len chunks * cs /\ 0 < len chunks.
Proof.
  intros Hcs Ht; rewrite text_chunks_pos by exact Hcs.
  intros H; injection H as <-.
  assert (Hn : 0 < len t) by (destruct t; [congruence|unfold len; simpl; lia]).
  pose proof (range_len_pos Hcs Hn) as Hk; cbn zeta in Hk.
  assert (E : len (List.map (block (Z.to_nat cs) t)
                     (seq 0 (Z.to_nat (range_len 0 (len t) cs))))
              = range_len 0 (len t) cs)
    by (unfold len at 1; rewrite length_map, length_seq; lia).
  rewrite E; exact Hk.
Qed.

(** A text that starts with a character that is not white space has a
    first chunk that starts with it. *)
Lemma text_chunks_head (a : char) (u : str) (cs : Z) :
  0 < cs ->
  exists w rest, text_chunks (a :: u) cs = Some ((a :: w) :: rest).
Proof.
  intros Hcs; rewrite text_chunks_pos by exact Hcs.
  assert (Hn : 0 < len (a :: u)) by (unfold len; simpl; lia).
  pose proof (range_len_pos Hcs Hn) as [_ Hk].
  destruct (Z.to_nat (range_len 0 (len (a :: u)) cs)) as [|k] eqn:Ek; [lia|].
  destruct (Z.to_nat cs) as [|c] eqn:Ec; [lia|].
  simpl; unfold block at 1; simpl.
  eexists _, _; reflexivity.
Qed.

Lemma join_len_bound (sep : str) (m : Z) (ys : list str) :
  Forall (fun y => len y <= m) ys -> ys <> [] ->
  len (join sep ys) <= len ys * (m + len sep) - len sep.
Proof.
  induction 1 as [|y ys Hy Hys IH]; [intros H; now destruct H|intros _].
  cbv beta in Hy.
  destruct ys as [|y' ys]; [unfold len in *; simpl List.length; simpl join; lia|].
  assert (IH' := IH ltac:(discriminate)).
  change (join sep (y :: y' :: ys)) with (y ++ sep ++ join sep (y' :: ys)).
  unfold len in *; rewrite !length_app.
  cbn [List.length] in *; nia.
Qed.

(** ** Runs of the engine *)

Lemma run_eq {A} (r1 r2 : run A) :
  res r1 = res r2 -> final r1 = final r2 -> trace r1 = trace r2 -> r1 = r2.
Proof. destruct r1, r2; simpl; intros; subst; reflexivity. Qed.

Lemma trace_call t mx mn s :
  trace (call_summarizer t mx mn s) = [mkCall t mx mn false].
Proof.
  unfold call_summarizer; now destruct (summarizer s t mx mn false).
Qed.

Lemma res_call t mx mn s :
  res (call_summarizer t mx mn s) =
  match fst (summarizer s t mx mn false) with
  | Some y => Ret y
  | None => Fail OracleError
  end.
Proof.
  unfold call_summarizer; now destruct (summarizer s t mx mn false).
Qed.

Lemma final_call t mx mn s :
  final (call_summarizer t mx mn s) = snd (summarizer s t mx mn false).
Proof.
  unfold call_summarizer; now destruct (summarizer s t mx mn false).
Qed.

Lemma trace_bind {A B} (m : M A) (k : A -> M B) s :
  trace (bind m k s) =
  match res (m s) with
  | Ret a => trace (m s) ++ trace (k a (final (m s)))
  | Fail _ => trace (m s)
  end.
Proof. unfold bind; now destruct (res (m s)). Qed.

Lemma res_bind {A B} (m : M A) (k : A -> M B) s :
  res (bind m k s) =
  match res (m s) with
  | Ret a => res (k a (final (m s)))
  | Fail e => Fail e
  end.
Proof. unfold bind; now destruct (res (m s)). Qed.

Lemma final_bind {A B} (m : M A) (k : A -> M B) s :
  final (bind m k s) =
  match res (m s) with
  | Ret a => final (k a (final (m s)))
  | Fail e => final (m s)
  end.
Proof. unfold bind; now destruct (res (m s)). Qed.

Lemma Forall_trace_bind {A B} (P : call -> Prop)
      (m : M A) (k : A -> M B) s :
  Forall P (trace (m s)) ->
  (forall a s', Forall P (trace (k a s'))) ->
  Forall P (trace (bind m k s)).
Proof.
  intros Hm Hk; rewrite trace_bind.
  destruct (res (m s)); [|exact Hm].
  apply Forall_app; split; [exact Hm|apply Hk].
Qed.

Lemma trace_lift_value {A} (o : option A) (s : St) :
  trace (lift_value o s) = [].
Proof. now destruct o. Qed.

(** The body of [summarize_in_chunks], whatever the depth left. *)
Lemma summarize_in_chunks_eq fuel text cs dm mn :
  summarize_in_chunks fuel text cs dm mn =
  if is_empty (strip text) then ret sentinel
  else if len (strip text) <=? cs
  then call_summarizer (strip text)
         (determine_max_length (strip text) dm mn) mn
  else
    bind (lift_value (text_chunks (strip text) cs)) (fun chunks =>
    bind (chunk_loop chunks dm mn []) (fun chunk_summaries =>
      if cs <? len (join (py " ") chunk_summaries)
      then match fuel with
           | O => fail Diverged
           | S fuel' =>
               summarize_in_chunks fuel' (join (py " ") chunk_summaries)
                                   cs dm mn
           end
      else call_summarizer (join (py " ") chunk_summaries)
             (determine_max_length (join (py " ") chunk_summaries) dm mn)
             mn)).
Proof. destruct fuel; reflexivity. Qed.

Lemma nonempty_chunks_cons (c : str) (chunks : list str) :
  nonempty_chunks (c :: chunks) =
  if is_empty (strip c) then nonempty_chunks chunks
  else strip c :: nonempty_chunks chunks.
Proof. unfold nonempty_chunks; simpl; now destruct (is_empty (strip c)). Qed.

(** The loop summarizes the chunks that are not empty once stripped, in
    order, and appends the summaries to its accumulator. *)
Lemma chunk_loop_spec chunks dm mn acc s :
  chunk_loop chunks dm mn acc s =
  let r := summarize_all (nonempty_chunks chunks) dm mn s in
  mkRun (match res r with Ret ys => Ret (acc ++ ys) | Fail e => Fail e end)
        (final r) (trace r).
Proof.
  revert acc s; induction chunks as [|c chunks IH]; intros acc s.
  - simpl; unfold ret; now rewrite app_nil_r.
  - rewrite nonempty_chunks_cons; simpl.
    destruct (is_empty (strip c)); [apply IH|].
    cbn [summarize_all].
    apply run_eq; cbn zeta;
      rewrite ?res_bind, ?final_bind, ?trace_bind;
      destruct (res (call_summarizer _ _ _ s)) as [y|e]; cbn [res final trace];
      try reflexivity; rewrite IH; cbn zeta; cbn [res final trace];
      rewrite ?res_bind, ?final_bind, ?trace_bind;
      destruct (res (summarize_all _ _ _ _)); cbn [res final trace ret];
      rewrite <- ?app_assoc, ?app_nil_r; reflexivity.
Qed.


Lemma summarize_all_trace_Forall (P : call -> Prop) dm mn :
  (forall t, P (planned dm mn t)) ->
  forall ts s, Forall P (trace (summarize_all ts dm mn s)).
Proof.
  intros HP ts; induction ts as [|t ts IH]; intros s; simpl.
  - constructor.
  - apply Forall_trace_bind.
    + rewrite trace_call; repeat constructor; apply HP.
    + intros y s'; apply Forall_trace_bind; [apply IH|].
      intros; constructor.
Qed.

Lemma chunk_loop_trace_Forall (P : call -> Prop) dm mn :
  (forall t, P (planned dm mn t)) ->
  forall chunks acc s, Forall P (trace (chunk_loop chunks dm mn acc s)).
Proof.
  intros HP chunks acc s; rewrite chunk_loop_spec; simpl.
  now apply summarize_all_trace_Forall.
Qed.

(** Every call of a run of [summarize_in_chunks] is planned from its own
    text, with the run's budget and without sampling. *)
Lemma summarize_in_chunks_trace_Forall (P : call -> Prop) dm mn :
  (forall t, P (planned dm mn t)) ->
  forall fuel text cs s,
    Forall P (trace (summarize_in_chunks fuel text cs dm mn s)).
Proof.
  intros HP fuel; induction fuel as [|fuel IH]; intros text cs s;
    rewrite summarize_in_chunks_eq.
  all: destruct (is_empty (strip text)); [constructor|].
  all: destruct (len (strip text) <=? cs);
    [rewrite trace_call; repeat constructor; apply HP|].
  all: apply Forall_trace_bind; [rewrite trace_lift_value; constructor|].
  all: intros chunks s1; apply Forall_trace_bind;
    [now apply chunk_loop_trace_Forall|].
  all: intros sums s2; destruct (cs <? len _);
    [|rewrite trace_call; repeat constructor; apply HP].
  - constructor.
  - apply IH.
Qed.

Lemma summarize_text_trace_split (P Q : call -> Prop) im fm :
  (forall t, P (planned im 50 t)) ->
  (forall t, Q (planned fm 50 t)) ->
  forall fuel text cs s,
  exists first second,
    trace (summarize_text fuel text cs im fm s) = first ++ second
    /\ Forall P first /\ Forall Q second.
Proof.
  intros HP HQ fuel text cs s; unfold summarize_text.
  destruct (is_empty (strip text)).
  { exists [], []; repeat split; constructor. }
  rewrite trace_bind, trace_lift_value.
  destruct (text_chunks (strip text) cs) as [chunks|]; simpl.
  2:{ exists [], []; repeat split; constructor. }
  rewrite trace_bind.
  pose proof (@chunk_loop_trace_Forall P im 50 HP chunks [] s) as H1.
  destruct (res (chunk_loop chunks im 50 [] s)) as [sums|e].
  - eexists _, _; split; [reflexivity|split; [exact H1|]].
    destruct (is_empty sums); [constructor|].
    now apply summarize_in_chunks_trace_Forall.
  - exists (trace (chunk_loop chunks im 50 [] s)), [].
    rewrite app_nil_r; repeat split; [exact H1|constructor].
Qed.



(** *** What the chunk pass returns *)

Lemma summarize_all_ret_length ts dm mn :
  forall s ys,
    res (summarize_all ts dm mn s) = Ret ys -> List.length ys = List.length ts.
Proof.
  induction ts as [|t ts IH]; intros s ys; simpl.
  - intros H; injection H as <-; reflexivity.
  - rewrite res_bind.
    destruct (res (call_summarizer _ _ _ s)) as [y|e]; [|discriminate].
    rewrite res_bind.
    destruct (res (summarize_all ts dm mn _)) as [ys'|e] eqn:E; [|discriminate].
    simpl; intros H; injection H as <-; simpl.
    f_equal; eapply IH; exact E.
Qed.

Lemma summarize_all_ret_Forall (Q : str -> Prop) ts dm mn :
  (forall s t mx mn' y, fst (summarizer s t mx mn' false) = Some y -> Q y) ->
  forall s ys, res (summarize_all ts dm mn s) = Ret ys -> Forall Q ys.
Proof.
  intros HQ; induction ts as [|t ts IH]; intros s ys; simpl.
  - intros H; injection H as <-; constructor.
  - rewrite res_bind, res_call.
    destruct (fst (summarizer s t _ mn false)) as [y|] eqn:Ey; [|discriminate].
    rewrite res_bind.
    destruct (res (summarize_all ts dm mn _)) as [ys'|e] eqn:E; [|discriminate].
    simpl; intros H; injection H as <-.
    constructor; [eapply HQ; exact Ey|eapply IH; exact E].
Qed.

(** The chunk pass stops only on an error of the oracle. *)
Lemma summarize_all_fail ts dm mn :
  forall s e, res (summarize_all ts dm mn s) = Fail e -> e = OracleError.
Proof.
  induction ts as [|t ts IH]; intros s e; simpl; [discriminate|].
  rewrite res_bind, res_call.
  destruct (fst (summarizer s t _ mn false)) as [y|].
  - rewrite res_bind.
    destruct (res (summarize_all ts dm mn _)) as [ys'|e'] eqn:E;
      [discriminate|].
    intros H; injection H as <-; eapply IH; exact E.
  - intros H; injection H as <-; reflexivity.
Qed.

Lemma res_chunk_loop chunks dm mn acc s :
  res (chunk_loop chunks dm mn acc s) =
  match res (summarize_all (nonempty_chunks chunks) dm mn s) with
  | Ret ys => Ret (acc ++ ys)
  | Fail e => Fail e
  end.
Proof. now rewrite chunk_loop_spec. Qed.

(** *** Two runs with a deterministic oracle *)

Lemma same_run_bind {A B} (m : M A) (k : A -> M B) :
  (forall s1 s2, same_run (m s1) (m s2)) ->
  (forall a s1 s2, same_run (k a s1) (k a s2)) ->
  forall s1 s2, same_run (bind m k s1) (bind m k s2).
Proof.
  intros Hm Hk s1 s2; destruct (Hm s1 s2) as [Hr Ht].
  unfold same_run; rewrite !res_bind, !trace_bind, <- Hr, <- Ht.
  destruct (res (m s1)) as [a|e]; [|split; reflexivity].
  destruct (Hk a (final (m s1)) (final (m s2))) as [Hr' Ht'].
  now rewrite Hr', Ht'.
Qed.

Lemma same_run_pure {A} (m : M A) (r : outcome A) :
  (forall s, res (m s) = r /\ trace (m s) = []) ->
  forall s1 s2, same_run (m s1) (m s2).
Proof.
  intros H s1 s2; destruct (H s1) as [R1 T1], (H s2) as [R2 T2].
  unfold same_run; now rewrite R1, R2, T1, T2.
Qed.

Section Deterministic.

(** Without sampling, the answer does not depend on the oracle's
    state. *)
Hypothesis deterministic :
  forall s1 s2 t mx mn,
    fst (summarizer s1 t mx mn false) = fst (summarizer s2 t mx mn false).

Lemma same_run_call t mx mn s1 s2 :
  same_run (call_summarizer t mx mn s1) (call_summarizer t mx mn s2).
Proof.
  unfold same_run; rewrite !res_call, !trace_call.
  now rewrite (deterministic s1 s2).
Qed.

Lemma same_run_chunk_loop chunks dm mn :
  forall acc s1 s2,
    same_run (chunk_loop chunks dm mn acc s1) (chunk_loop chunks dm mn acc s2).
Proof.
  induction chunks as [|c chunks IH]; intros acc s1 s2; simpl.
  - split; reflexivity.
  - destruct (is_empty (strip c)); [apply IH|].
    apply same_run_bind; [apply same_run_call|].
    intros y; apply IH.
Qed.

Lemma same_run_summarize_in_chunks fuel :
  forall text cs dm mn s1 s2,
    same_run (summarize_in_chunks fuel text cs dm mn s1)
             (summarize_in_chunks fuel text cs dm mn s2).
Proof.
  induction fuel as [|fuel IH]; intros text cs dm mn s1 s2;
    rewrite summarize_in_chunks_eq.
  all: destruct (is_empty (strip text)); [split; reflexivity|].
  all: destruct (len (strip text) <=? cs); [apply same_run_call|].
  all: apply same_run_bind;
    [apply same_run_pure with
       (r := match text_chunks (strip text) cs with
             | Some c => Ret c | None => Fail ValueError end);
     intros s; now destruct (text_chunks (strip text) cs)|].
  all: intros chunks; apply same_run_bind; [apply same_run_chunk_loop|].
  all: intros sums; destruct (cs <? len _); [|apply same_run_call].
  - split; reflexivity.
  - apply IH.
Qed.

End Deterministic.


(** *** Convergence when the answers are short *)

Section ShortAnswers.

Variables m cs : Z.

(** Every answer has at most [m] characters, and two answers and their
    separators fit in a chunk. *)
Hypothesis short :
  forall s t mx mn y, fst (summarizer s t mx mn false) = Some y -> len y <= m.
Hypothesis m_nonneg : 0 <= m.
Hypothesis room : 2 * (m + 1) <= cs.

Lemma combined_shorter (t : str) chunks dm mn s ys :
  cs < len t ->
  text_chunks t cs = Some chunks ->
  res (summarize_all (nonempty_chunks chunks) dm mn s) = Ret ys ->
  len (join (py " ") ys) < len t - 1.
Proof.
  intros Hlen Hc Hr.
  assert (Ht : t <> []) by (intros ->; unfold len in Hlen; simpl in Hlen; lia).
  assert (Hcs : 0 < cs) by lia.
  destruct (text_chunks_length Hcs Ht Hc) as [[Hlo _] Hpos].
  pose proof (summarize_all_ret_length _ _ _ _ Hr) as Hl.
  pose proof (nonempty_chunks_length chunks) as Hk.
  pose proof (summarize_all_ret_Forall (fun y => len y <= m) _ dm mn short _ Hr)
    as Hall.
  destruct ys as [|y ys]; [unfold len in *; simpl; lia|].
  pose proof (join_len_bound (py " ") Hall ltac:(discriminate)) as Hj.
  change (len (py " ")) with 1 in Hj.
  assert (Hle : len (y :: ys) <= len chunks) by (unfold len; lia).
  nia.
Qed.

Lemma summarize_in_chunks_converges fuel :
  forall text dm mn s,
    (List.length (strip text) <= fuel)%nat ->
    res (summarize_in_chunks fuel text cs dm mn s) <> Fail Diverged.
Proof.
  induction fuel as [|fuel IH]; intros text dm mn s Hfuel;
    rewrite summarize_in_chunks_eq.
  all: destruct (strip text) as [|a u] eqn:Et; [discriminate|].
  all: cbn [is_empty]; destruct (Z.leb_spec (len (a :: u)) cs) as [|Hlen];
    [rewrite res_call; destruct (fst _); discriminate|].
  1: simpl in Hfuel; lia.
  rewrite res_bind.
  destruct (text_chunks (a :: u) cs) as [chunks|] eqn:Ec;
    [|rewrite text_chunks_pos in Ec by lia; discriminate].
  cbn [lift_value ret res final].
  rewrite res_bind, res_chunk_loop.
  destruct (res (summarize_all _ _ _ s)) as [ys|e] eqn:Es.
  - cbn [app].
    pose proof (combined_shorter _ _ _ _ Hlen Ec Es) as Hj.
    destruct (Z.ltb_spec cs (len (join (py " ") ys)));
      [|rewrite res_call; destruct (fst _); discriminate].
    apply IH.
    pose proof (strip_length (join (py " ") ys)).
    unfold len in Hj; cbn [List.length] in Hj, Hfuel; lia.
  - apply summarize_all_fail in Es; subst e; discriminate.
Qed.

End ShortAnswers.


(** *** Divergence when the answers are long *)

Section LongAnswers.

Variables (w v : str) (a b : char) (cs : Z).

(** The oracle answers the one word [w] to every call, and [w] does not
    fit in a chunk. *)
Hypothesis answers :
  forall s t mx mn, fst (summarizer s t mx mn false) = Some w.
Hypothesis shape : w = a :: v ++ [b].
Hypothesis a_nonspace : isspace a = false.
Hypothesis b_nonspace : isspace b = false.
Hypothesis cs_pos : 0 < cs.
Hypothesis long : cs < len w.

Lemma summarize_all_const ts dm mn :
  forall s, res (summarize_all ts dm mn s) = Ret (repeat w (List.length ts)).
Proof.
  induction ts as [|t ts IH]; intros s; simpl; [reflexivity|].
  rewrite res_bind, res_call, answers, res_bind, IH; reflexivity.
Qed.

Lemma join_repeat_shape (k : nat) :
  exists v',
    join (py " ") (repeat w (S k)) = a :: v' ++ [b]
    /\ (List.length w <= List.length (a :: v' ++ [b]))%nat.
Proof.
  induction k as [|k [v' [E Hl]]].
  - exists v; rewrite <- shape; split; [reflexivity|lia].
  - exists (v ++ [b] ++ py " " ++ a :: v').
    change (repeat w (S (S k))) with (w :: repeat w (S k)).
    change (join (py " ") (w :: repeat w (S k)))
      with (w ++ py " " ++ join (py " ") (repeat w (S k))).
    rewrite E; split.
    + rewrite shape; simpl; rewrite <- !app_assoc; reflexivity.
    + rewrite shape; simpl; rewrite !length_app; simpl; lia.
Qed.

Lemma summarize_in_chunks_diverges fuel :
  forall text dm mn s,
    strip text <> [] -> cs < len (strip text) ->
    res (summarize_in_chunks fuel text cs dm mn s) = Fail Diverged.
Proof.
  induction fuel as [|fuel IH]; intros text dm mn s Hne Hlen;
    rewrite summarize_in_chunks_eq.
  all: destruct (strip text) as [|a' u] eqn:Et; [congruence|].
  all: pose proof (strip_head _ Et) as Ha'.
  all: cbn [is_empty]; destruct (Z.leb_spec (len (a' :: u)) cs); [lia|].
  all: rewrite res_bind.
  all: destruct (text_chunks_head a' u cs_pos) as [w0 [rest Ec]]; rewrite Ec.
  all: cbn [lift_value ret res final].
  all: rewrite res_bind, res_chunk_loop, summarize_all_const.
  all: rewrite nonempty_chunks_cons, strip_cons_nonspace by exact Ha'.
  all: cbn [is_empty List.length app].
  all: destruct (join_repeat_shape (List.length (nonempty_chunks rest)))
    as [v' [E Hl]]; rewrite E.
  all: destruct (Z.ltb_spec cs (len (a :: v' ++ [b])));
    [|unfold len in *; lia].
  - reflexivity.
  - apply IH; rewrite strip_fixed by assumption; [discriminate|assumption].
Qed.

End LongAnswers.


(** ** The claims about runs with any oracle *)


(** C4 (as amended): when the trimmed text is not empty and
    [len(text) <= chunk_size], [summarize_in_chunks] is one oracle call,
    made on the trimmed text with the length planned from it; the call
    receives the input itself when trimming leaves it unchanged. *)
Theorem single_call_on_trimmed_text fuel text cs dm mn s :
  strip text <> [] -> len text <= cs ->
  summarize_in_chunks fuel text cs dm mn s
  = call_summarizer (strip text)
      (determine_max_length (strip text) dm mn) mn s
  /\ trace (summarize_in_chunks fuel text cs dm mn s)
     = [mkCall (strip text) (determine_max_length (strip text) dm mn) mn false]
  /\ (strip text = text ->
      List.map call_text (trace (summarize_in_chunks fuel text cs dm mn s))
      = [text]).
Proof.
  intros Hne Hlen.
  assert (E : summarize_in_chunks fuel text cs dm mn s
              = call_summarizer (strip text)
                  (determine_max_length (strip text) dm mn) mn s).
  { rewrite summarize_in_chunks_eq.
    apply is_empty_false in Hne; rewrite Hne.
    pose proof (strip_length text).
    destruct (Z.leb_spec (len (strip text)) cs); [reflexivity|].
    unfold len in *; lia. }
  rewrite E, trace_call; repeat split.
  intros ->; reflexivity.
Qed.

(** C7: on an empty or white-space-only text both entry points return
    the sentinel "No content to summarize." and make no oracle call,
    whatever the chunk size and the length parameters. *)
Theorem blank_input_sentinel fuel text cs dm mn im fm s :
  blank text = true ->
  summarize_in_chunks fuel text cs dm mn s = mkRun (Ret sentinel) s []
  /\ summarize_text fuel text cs im fm s = mkRun (Ret sentinel) s []
  /\ sentinel = py "No content to summarize.".
Proof.
  intros Hb; apply strip_nil_iff in Hb.
  rewrite summarize_in_chunks_eq; unfold summarize_text.
  rewrite Hb; repeat split.
Qed.


(** C9: with an oracle whose answer without sampling depends only on
    the text and the length parameters, two runs of
    [summarize_in_chunks] on the same input return the same thing after
    the same calls, whatever state the oracle starts from; and every
    call is made with [do_sample=False]. *)
Theorem deterministic_oracle_same_output fuel text cs dm mn s1 s2 :
  (forall s s' t mx mn',
      fst (summarizer s t mx mn' false) = fst (summarizer s' t mx mn' false)) ->
  res (summarize_in_chunks fuel text cs dm mn s1)
  = res (summarize_in_chunks fuel text cs dm mn s2)
  /\ trace (summarize_in_chunks fuel text cs dm mn s1)
     = trace (summarize_in_chunks fuel text cs dm mn s2)
  /\ Forall (fun c => call_do_sample c = false)
            (trace (summarize_in_chunks fuel text cs dm mn s1)).
Proof.
  intros Hdet.
  destruct (same_run_summarize_in_chunks Hdet fuel text cs dm mn s1 s2)
    as [Hres Htrace].
  repeat split; [exact Hres|exact Htrace|].
  apply summarize_in_chunks_trace_Forall; reflexivity.
Qed.

(** C2 (as amended): when every answer of the oracle has at most [m]
    characters and [2 * (m + 1) <= chunk_size], the recursion of
    [summarize_in_chunks] ends: a depth of [len(text.strip())] is
    enough, on every input and from every oracle state. *)
Theorem short_answers_converge m cs text dm mn s fuel :
  0 <= m -> 2 * (m + 1) <= cs ->
  (forall s' t mx mn' y,
      fst (summarizer s' t mx mn' false) = Some y -> len y <= m) ->
  (List.length (strip text) <= fuel)%nat ->
  res (summarize_in_chunks fuel text cs dm mn s) <> Fail Diverged.
Proof.
  intros Hm Hroom Hshort Hfuel.
  now apply (summarize_in_chunks_converges Hshort Hm Hroom).
Qed.

Lemma bind_ext {A B} (m : M A) (k k' : A -> M B) s :
  (forall a s', k a s' = k' a s') -> bind m k s = bind m k' s.
Proof.
  intros H; unfold bind; destruct (res (m s)); [|reflexivity].
  now rewrite H.
Qed.

Lemma bind_ret_l {A B} (a : A) (k : A -> M B) s : bind (ret a) k s = k a s.
Proof. unfold bind, ret; simpl; now destruct (k a s). Qed.

Lemma summarize_in_chunks_nil fuel cs dm mn s :
  summarize_in_chunks fuel [] cs dm mn s = ret sentinel s.
Proof. now rewrite summarize_in_chunks_eq. Qed.

Lemma text_chunks_single (t : str) (cs : Z) :
  t <> [] -> len t <= cs -> text_chunks t cs = Some [t].
Proof.
  intros Ht Hlen.
  assert (Hn : 0 < len t) by (destruct t; [congruence|unfold len; simpl; lia]).
  rewrite text_chunks_pos by lia.
  unfold range_len.
  destruct (Z.ltb_spec 0 cs); [|lia].
  destruct (Z.ltb_spec 0 (len t)); [|lia].
  rewrite Z.div_small by lia; simpl.
  unfold block; simpl.
  rewrite firstn_all2; [reflexivity|unfold len in Hlen; lia].
Qed.

(** C6: on a text whose trimmed form is not empty, [summarize_text] is
    the two-pass reduction of the specification: one chunk-and-summarize
    pass planned from [intermediate_summary_length] and 50, the results
    joined with single spaces, then [summarize_in_chunks] on the
    combined string with [(chunk_size, final_summary_length, 50)].  The
    pass is made even when the text fits in one chunk: the text is then
    summarized once, and the summary handed to [summarize_in_chunks]. *)
Theorem two_pass_then_delegate fuel text cs im fm s :
  strip text <> [] ->
  summarize_text fuel text cs im fm s = reduce_two_pass fuel text cs im fm s
  /\ (len (strip text) <= cs ->
      summarize_text fuel text cs im fm s
      = bind (call_summarizer (strip text)
                (determine_max_length (strip text) im 50) 50)
             (fun summary => summarize_in_chunks fuel summary cs fm 50) s).
Proof.
  intros Hne.
  assert (E : summarize_text fuel text cs im fm s
              = reduce_two_pass fuel text cs im fm s).
  { unfold summarize_text, reduce_two_pass.
    apply is_empty_false in Hne; rewrite Hne.
    apply bind_ext; intros chunks s1.
    unfold bind; rewrite chunk_loop_spec; cbn zeta; cbn [res final trace].
    destruct (res (summarize_all (nonempty_chunks chunks) im 50 s1))
      as [ys|e]; [|reflexivity].
    cbn [app]; destruct ys as [|y ys]; [|reflexivity].
    cbn [is_empty join]; now rewrite summarize_in_chunks_nil. }
  split; [exact E|intros Hlen].
  rewrite E; unfold reduce_two_pass.
  rewrite (text_chunks_single Hne Hlen); cbn [lift_value].
  rewrite bind_ret_l, nonempty_chunks_cons, strip_idem.
  apply is_empty_false in Hne; rewrite Hne.
  apply run_eq; cbn [lift_value summarize_all nonempty_chunks List.map filter];
    rewrite ?res_bind, ?final_bind, ?trace_bind; cbn [ret res final trace];
    rewrite ?res_bind, ?final_bind, ?trace_bind;
    destruct (res (call_summarizer _ _ _ s)); cbn [ret res final trace app join];
    rewrite ?app_nil_r; reflexivity.
Qed.

(** C10 (as amended): in [summarize_text] with a positive [chunk_size],
    a text whose trimmed form is not empty has a chunk that is not empty
    once stripped, so whenever the chunk loop returns, its list of
    summaries is not empty: the sentinel return after the loop is not
    taken. *)
Theorem some_chunk_is_summarized text cs im s :
  strip text <> [] -> 0 < cs ->
  exists chunks,
    text_chunks (strip text) cs = Some chunks
    /\ Exists (fun c => strip c <> []) chunks
    /\ forall chunk_summaries,
        res (chunk_loop chunks im 50 [] s) = Ret chunk_summaries ->
        is_empty chunk_summaries = false.
Proof.
  intros Hne Hcs.
  destruct (strip text) as [|a u] eqn:Et; [congruence|].
  pose proof (strip_head _ Et) as Ha.
  destruct (text_chunks_head a u Hcs) as [w0 [rest Ec]].
  exists ((a :: w0) :: rest); split; [exact Ec|split].
  - apply Exists_cons_hd; rewrite strip_cons_nonspace by exact Ha; discriminate.
  - intros sums; rewrite res_chunk_loop, nonempty_chunks_cons.
    rewrite strip_cons_nonspace by exact Ha; cbn [is_empty].
    destruct (res (summarize_all _ im 50 s)) as [ys|e] eqn:Es; [|discriminate].
    apply summarize_all_ret_length in Es.
    intros H; injection H as <-.
    destruct ys; [discriminate|reflexivity].
Qed.


Lemma is_empty_strip (c : str) : is_empty (strip c) = blank c.
Proof.
  unfold blank; destruct (forallb isspace c) eqn:E.
  - apply strip_nil_iff in E; now rewrite E.
  - apply is_empty_false; intros H; apply strip_nil_iff in H; congruence.
Qed.

Lemma nonempty_chunks_filter (chunks : list str) :
  nonempty_chunks chunks
  = List.map strip (filter (fun c => negb (blank c)) chunks).
Proof.
  induction chunks as [|c chunks IH]; [reflexivity|].
  rewrite nonempty_chunks_cons, is_empty_strip; simpl.
  destruct (blank c); simpl; now rewrite IH.
Qed.

(** The calls of a chunk pass are the planned calls on its texts, in
    order: all of them when the pass returns, the first ones up to the
    failing call otherwise. *)
Lemma summarize_all_trace ts dm mn :
  forall s,
  exists rest,
    List.map (planned dm mn) ts = trace (summarize_all ts dm mn s) ++ rest
    /\ forall ys, res (summarize_all ts dm mn s) = Ret ys -> rest = [].
Proof.
  induction ts as [|t ts IH]; intros s.
  - exists []; split; [reflexivity|reflexivity].
  - cbn [summarize_all List.map].
    rewrite trace_bind, res_bind, trace_call.
    destruct (res (call_summarizer t _ mn s)) as [y|e].
    + destruct (IH (final (call_summarizer t (determine_max_length t dm mn)
                             mn s))) as [rest [E Hr]].
      exists rest; rewrite trace_bind, res_bind.
      destruct (res (summarize_all ts dm mn _)) as [ys|e] eqn:Es.
      * cbn [ret trace]; rewrite app_nil_r, E; split; [reflexivity|].
        intros _ _; now apply (Hr ys).
      * rewrite E; split; [reflexivity|discriminate].
    + exists (List.map (planned dm mn) ts); split; [reflexivity|discriminate].
Qed.

Lemma ceil_div_spec (a b k : Z) :
  0 < b -> (k - 1) * b < a <= k * b -> ceil_div a b = k.
Proof.
  intros Hb Hk; unfold ceil_div.
  rewrite <- (Z.div_unique (- a) b (- k) (k * b - a)); lia.
Qed.

Lemma nth_blocks (c K j : nat) (t : str) :
  (j < K)%nat ->
  nth j (List.map (block c t) (seq 0 K)) [] = block c t j.
Proof.
  intros Hj.
  rewrite (nth_indep _ [] (block c t 0)) by (rewrite length_map, length_seq; lia).
  now rewrite map_nth, seq_nth.
Qed.

(** C5: for [0 < chunk_size < len(text)] the chunking step gives
    [ceil(len(text) / chunk_size)] chunks; every chunk but the last has
    [chunk_size] characters and the last has between 1 and
    [chunk_size]; the chunk of index [j] is the part of the text that
    starts at [j * chunk_size]; the chunks concatenated in order are the
    text; and the chunk loop summarizes, in order, the stripped chunks
    that are not white space only, dropping exactly the others. *)
Theorem chunking_covers_text text cs :
  0 < cs -> cs < len text ->
  exists chunks,
    text_chunks text cs = Some chunks
    /\ len chunks = ceil_div (len text) cs
    /\ (forall j, (j + 1 < List.length chunks)%nat ->
                  len (nth j chunks []) = cs)
    /\ 0 < len (nth (List.length chunks - 1) chunks []) <= cs
    /\ (forall j, (j < List.length chunks)%nat ->
                  nth j chunks []
                  = firstn (Z.to_nat cs) (skipn (j * Z.to_nat cs) text))
    /\ List.concat chunks = text
    /\ (forall c, is_empty (strip c) = true <-> blank c = true)
    /\ forall dm mn acc s,
        exists rest,
          List.map (planned dm mn)
                   (List.map strip (filter (fun c => negb (blank c)) chunks))
          = trace (chunk_loop chunks dm mn acc s) ++ rest
          /\ forall sums, res (chunk_loop chunks dm mn acc s) = Ret sums ->
                          rest = [].
Proof.
  intros Hcs Hlen.
  assert (Hn : 0 < len text) by lia.
  pose proof (range_len_pos Hcs Hn) as [[Hlo Hhi] Hpos]; cbn zeta in *.
  set (K := range_len 0 (len text) cs) in *.
  exists (List.map (block (Z.to_nat cs) text) (seq 0 (Z.to_nat K))).
  assert (HK : List.length (List.map (block (Z.to_nat cs) text)
                              (seq 0 (Z.to_nat K))) = Z.to_nat K)
    by now rewrite length_map, length_seq.
  split; [now apply text_chunks_pos|].
  split; [unfold len at 1; rewrite HK, (@ceil_div_spec (len text) cs K); lia|].
  rewrite HK.
  split; [|split; [|split; [|split; [|split]]]].
  - intros j Hj; rewrite nth_blocks by lia.
    unfold len at 1; rewrite block_length; unfold len in *; nia.
  - rewrite nth_blocks by lia.
    unfold len in *; rewrite block_length.
    assert (E : Z.of_nat ((Z.to_nat K - 1) * Z.to_nat cs) = (K - 1) * cs)
      by nia.
    lia.
  - intros j Hj; now rewrite nth_blocks.
  - unfold block; rewrite blocks_concat.
    apply firstn_all2; unfold len in *; nia.
  - intros c; now rewrite is_empty_strip.
  - intros dm mn acc s.
    rewrite chunk_loop_spec; cbn zeta; cbn [res trace].
    rewrite <- nonempty_chunks_filter.
    destruct (summarize_all_trace
                (nonempty_chunks (List.map (block (Z.to_nat cs) text)
                                           (seq 0 (Z.to_nat K)))) dm mn s)
      as [rest [E Hr]].
    exists rest; split; [exact E|].
    intros sums; destruct (res (summarize_all _ dm mn s)) as [ys|e];
      [|discriminate].
    intros _; now apply (Hr ys).
Qed.


(** ** Further facts about the runs *)

Lemma text_chunks_zero (t : str) : text_chunks t 0 = None.
Proof. reflexivity. Qed.

Lemma text_chunks_neg (t : str) (cs : Z) : cs < 0 -> text_chunks t cs = Some [].
Proof.
  intros Hcs; unfold text_chunks, range, range_len.
  destruct (Z.eqb_spec cs 0); [lia|].
  destruct (Z.ltb_spec 0 cs); [lia|].
  destruct (Z.ltb_spec (len t) 0); [unfold len in *; lia|reflexivity].
Qed.

Lemma text_chunks_len_le (t : str) (cs : Z) chunks :
  text_chunks t cs = Some chunks -> Forall (fun c => len c <= cs) chunks.
Proof.
  destruct (Z.lt_trichotomy cs 0) as [Hcs|[->|Hcs]].
  - rewrite text_chunks_neg by exact Hcs.
    intros H; injection H as <-; constructor.
  - discriminate.
  - rewrite text_chunks_pos by exact Hcs.
    intros H; injection H as <-.
    apply Forall_forall; intros c Hc.
    apply in_map_iff in Hc as [j [<- _]].
    unfold len; rewrite block_length; lia.
Qed.

Lemma nonempty_chunks_in (chunks : list str) (t : str) :
  In t (nonempty_chunks chunks) ->
  exists c, In c chunks /\ t = strip c /\ t <> [].
Proof.
  unfold nonempty_chunks; intros H.
  apply filter_In in H as [H Hne].
  apply in_map_iff in H as [c [<- Hc]].
  exists c; repeat split; [exact Hc|].
  now destruct (strip c).
Qed.

Lemma summarize_all_trace_Forall_in (P : call -> Prop) dm mn :
  forall ts s,
    (forall t, In t ts -> P (planned dm mn t)) ->
    Forall P (trace (summarize_all ts dm mn s)).
Proof.
  induction ts as [|t ts IH]; intros s HP; simpl.
  - constructor.
  - apply Forall_trace_bind.
    + rewrite trace_call; repeat constructor; apply HP; now left.
    + intros y s'; apply Forall_trace_bind.
      * apply IH; intros t' Ht'; apply HP; now right.
      * intros; constructor.
Qed.

Lemma summarize_all_ret_answers ts dm mn s ys :
  res (summarize_all ts dm mn s) = Ret ys -> Forall answer ys.
Proof.
  apply summarize_all_ret_Forall.
  intros s0 t mx mn' y H; now exists s0, t, mx, mn'.
Qed.

Lemma blank_app (t u : str) : blank (t ++ u) = blank t && blank u.
Proof. apply forallb_app. Qed.

Lemma blank_join (sep : str) (ys : list str) :
  ys <> [] -> Forall (fun y => blank y = false) ys ->
  blank (join sep ys) = false.
Proof.
  intros Hne Hall; destruct Hall as [|y ys Hy _]; [congruence|].
  destruct ys as [|y' ys]; [exact Hy|].
  change (join sep (y :: y' :: ys)) with (y ++ sep ++ join sep (y' :: ys)).
  now rewrite blank_app, Hy.
Qed.

Lemma stripped_not_blank (t : str) : t <> [] -> strip t = t -> blank t = false.
Proof.
  intros Hne E; rewrite <- is_empty_strip, E; now apply is_empty_false.
Qed.

(** The texts a run of [summarize_in_chunks] hands to the oracle are
    stripped texts that fit in a chunk, or the join of the answers to
    the chunks when it fits in a chunk. *)
Lemma summarize_in_chunks_trace_texts (P : call -> Prop) cs dm mn :
  (forall t, t <> [] -> strip t = t -> len t <= cs -> P (planned dm mn t)) ->
  (forall ys, ys <> [] -> Forall answer ys ->
              len (join (py " ") ys) <= cs ->
              P (planned dm mn (join (py " ") ys))) ->
  forall fuel text s,
    Forall P (trace (summarize_in_chunks fuel text cs dm mn s)).
Proof.
  intros Hbase Hfinal fuel; induction fuel as [|fuel IH]; intros text s;
    rewrite summarize_in_chunks_eq.
  all: destruct (strip text) as [|a u] eqn:Et; [constructor|].
  all: pose proof (strip_head _ Et) as Ha.
  all: assert (Hid : strip (a :: u) = a :: u) by (rewrite <- Et; apply strip_idem).
  all: cbn [is_empty]; destruct (Z.leb_spec (len (a :: u)) cs) as [Hle|Hgt];
    [rewrite trace_call; repeat constructor;
     apply Hbase; [discriminate|exact Hid|exact Hle]|].
  all: destruct (text_chunks (a :: u) cs) as [chunks|] eqn:Ec;
    [|constructor].
  all: cbn [lift_value]; rewrite bind_ret_l, trace_bind, chunk_loop_spec.
  all: cbn zeta; cbn [res final trace].
  all: assert (Hchunks :
      Forall P (trace (summarize_all (nonempty_chunks chunks) dm mn s)))
    by (apply summarize_all_trace_Forall_in; intros t Ht;
        apply nonempty_chunks_in in Ht as [c [Hc [-> Hne]]];
        apply Hbase; [exact Hne|apply strip_idem|];
        pose proof (proj1 (Forall_forall _ _) (text_chunks_len_le _ _ Ec) c Hc);
        pose proof (strip_length c); unfold len in *; lia).
  all: destruct (res (summarize_all (nonempty_chunks chunks) dm mn s))
    as [ys|e] eqn:Es; [|exact Hchunks].
  all: apply Forall_app; split; [exact Hchunks|]; cbn [app].
  all: destruct (Z.ltb_spec cs (len (join (py " ") ys))) as [Hrec|Hfit];
    [|rewrite trace_call; repeat constructor; apply Hfinal;
      [|exact (summarize_all_ret_answers _ _ _ _ Es)|exact Hfit]].
  - constructor.
  - apply summarize_all_ret_length in Es.
    destruct (Z.lt_trichotomy cs 0) as [Hcs|[->|Hcs]].
    + unfold len in Hfit; lia.
    + discriminate.
    + destruct (text_chunks_head a u Hcs) as [w0 [rest Ec']].
      rewrite Ec' in Ec; injection Ec as <-.
      rewrite nonempty_chunks_cons, strip_cons_nonspace in Es by exact Ha.
      intros ->; discriminate.
  - apply IH.
  - apply summarize_all_ret_length in Es.
    destruct (Z.lt_trichotomy cs 0) as [Hcs|[->|Hcs]].
    + unfold len in Hfit; lia.
    + discriminate.
    + destruct (text_chunks_head a u Hcs) as [w0 [rest Ec']].
      rewrite Ec' in Ec; injection Ec as <-.
      rewrite nonempty_chunks_cons, strip_cons_nonspace in Es by exact Ha.
      intros ->; discriminate.
Qed.


Lemma summarize_text_trace_texts (P : call -> Prop) cs im fm :
  (forall t, t <> [] -> strip t = t -> len t <= cs -> P (planned im 50 t)) ->
  (forall fuel text s,
      Forall P (trace (summarize_in_chunks fuel text cs fm 50 s))) ->
  forall fuel text s,
    Forall P (trace (summarize_text fuel text cs im fm s)).
Proof.
  intros Hchunk Hrest fuel text s; unfold summarize_text.
  destruct (is_empty (strip text)); [constructor|].
  destruct (text_chunks (strip text) cs) as [chunks|] eqn:Ec; [|constructor].
  cbn [lift_value]; rewrite bind_ret_l.
  apply Forall_trace_bind.
  - rewrite chunk_loop_spec; cbn zeta; cbn [trace].
    apply summarize_all_trace_Forall_in; intros t Ht.
    apply nonempty_chunks_in in Ht as [c [Hc [-> Hne]]].
    apply Hchunk; [exact Hne|apply strip_idem|].
    pose proof (proj1 (Forall_forall _ _) (text_chunks_len_le _ _ Ec) c Hc).
    pose proof (strip_length c); unfold len in *; lia.
  - intros sums s'; destruct (is_empty sums); [constructor|apply Hrest].
Qed.

(** X1: whatever the input, the parameters, the oracle and the depth,
    every text handed to the oracle by [summarize_in_chunks] or by
    [summarize_text] has at most [chunk_size] characters. *)
Theorem oracle_text_fits_chunk fuel text cs dm mn im fm s :
  Forall (fun c => len (call_text c) <= cs)
         (trace (summarize_in_chunks fuel text cs dm mn s))
  /\ Forall (fun c => len (call_text c) <= cs)
            (trace (summarize_text fuel text cs im fm s)).
Proof.
  split.
  - apply summarize_in_chunks_trace_texts; intros; assumption.
  - apply summarize_text_trace_texts; [intros; assumption|].
    intros fuel' text' s'.
    apply summarize_in_chunks_trace_texts; intros; assumption.
Qed.

(** X2: when no answer of the oracle is empty or white space only, no
    call of a run of [summarize_in_chunks] or [summarize_text] receives
    an empty or white-space-only text. *)
Theorem nonblank_answers_nonblank_calls fuel text cs dm mn im fm s :
  (forall s' t mx mn' y,
      fst (summarizer s' t mx mn' false) = Some y -> blank y = false) ->
  Forall (fun c => blank (call_text c) = false)
         (trace (summarize_in_chunks fuel text cs dm mn s))
  /\ Forall (fun c => blank (call_text c) = false)
            (trace (summarize_text fuel text cs im fm s)).
Proof.
  intros Hans.
  assert (Hjoin : forall ys, ys <> [] -> Forall answer ys ->
                             blank (join (py " ") ys) = false).
  { intros ys Hne Hall; apply blank_join; [exact Hne|].
    eapply Forall_impl; [|exact Hall].
    intros y [s0 [t [mx [mn' Hy]]]]; eapply Hans; exact Hy. }
  assert (Hsic : forall dm' mn' fuel' text' s',
             Forall (fun c => blank (call_text c) = false)
                    (trace (summarize_in_chunks fuel' text' cs dm' mn' s'))).
  { intros dm' mn' fuel' text' s'.
    apply summarize_in_chunks_trace_texts.
    - intros t Hne Hid _; now apply stripped_not_blank.
    - intros ys Hne Hall _; now apply Hjoin. }
  split; [apply Hsic|].
  apply summarize_text_trace_texts; [|intros; apply Hsic].
  intros t Hne Hid _; now apply stripped_not_blank.
Qed.

(** X3: with [chunk_size = 0] and a text that is not blank, both entry
    points stop on the ValueError of [range] before any oracle call. *)
Theorem zero_chunk_size_raises fuel text dm mn im fm s :
  strip text <> [] ->
  summarize_in_chunks fuel text 0 dm mn s = mkRun (Fail ValueError) s []
  /\ summarize_text fuel text 0 im fm s = mkRun (Fail ValueError) s [].
Proof.
  intros Hne; rewrite summarize_in_chunks_eq; unfold summarize_text.
  destruct (strip text) as [|a u]; [congruence|].
  cbn [is_empty]; rewrite text_chunks_zero.
  destruct (Z.leb_spec (len (a :: u)) 0) as [H|_];
    [unfold len in H; simpl in H; lia|].
  split; reflexivity.
Qed.

(** X4: with a negative [chunk_size] and a text that is not blank,
    there is no chunk: [summarize_text] returns the sentinel without any
    oracle call, and so does [summarize_in_chunks], after one level of
    recursion on the empty combined text. *)
Theorem negative_chunk_size_sentinel fuel text cs dm mn im fm s :
  cs < 0 -> strip text <> [] ->
  summarize_in_chunks (S fuel) text cs dm mn s = mkRun (Ret sentinel) s []
  /\ summarize_text fuel text cs im fm s = mkRun (Ret sentinel) s [].
Proof.
  intros Hcs Hne; rewrite summarize_in_chunks_eq; unfold summarize_text.
  destruct (strip text) as [|a u]; [congruence|].
  cbn [is_empty]; rewrite text_chunks_neg by exact Hcs.
  destruct (Z.leb_spec (len (a :: u)) cs) as [H|_];
    [unfold len in H; simpl in H; lia|].
  cbn [lift_value]; rewrite !bind_ret_l.
  cbn [chunk_loop]; rewrite !bind_ret_l; cbn [join is_empty].
  destruct (Z.ltb_spec cs (len (@nil char))) as [_|H];
    [|unfold len in H; simpl in H; lia].
  rewrite summarize_in_chunks_nil; split; reflexivity.
Qed.


Lemma text_chunks_first (t : str) (cs : Z) :
  0 < cs -> t <> [] ->
  exists rest, text_chunks t cs = Some (firstn (Z.to_nat cs) t :: rest).
Proof.
  intros Hcs Ht; rewrite text_chunks_pos by exact Hcs.
  assert (Hn : 0 < len t) by (destruct t; [congruence|unfold len; simpl; lia]).
  pose proof (range_len_pos Hcs Hn) as [_ Hk].
  destruct (Z.to_nat (range_len 0 (len t) cs)) as [|k] eqn:Ek; [lia|].
  simpl; unfold block at 1; simpl.
  eexists; reflexivity.
Qed.

Lemma firstn_cons_pos {A} (n : nat) (a : A) (u : list A) :
  (0 < n)%nat -> firstn n (a :: u) = a :: firstn (n - 1) u.
Proof.
  destruct n as [|n]; [lia|]; simpl; now rewrite Nat.sub_0_r.
Qed.

(** X5: fail-fast.  The first text of a run is the trimmed text when it
    fits in a chunk and its first chunk, stripped, otherwise; when the
    oracle raises on it, the run stops there with that single call. *)
Theorem oracle_error_aborts fuel text cs dm mn im fm s :
  strip text <> [] -> 0 < cs ->
  (forall mx mn',
      fst (summarizer s (strip (firstn (Z.to_nat cs) (strip text))) mx mn' false)
      = None) ->
  (res (summarize_in_chunks fuel text cs dm mn s) = Fail OracleError
   /\ trace (summarize_in_chunks fuel text cs dm mn s)
      = [planned dm mn (strip (firstn (Z.to_nat cs) (strip text)))])
  /\ (res (summarize_text fuel text cs im fm s) = Fail OracleError
      /\ trace (summarize_text fuel text cs im fm s)
         = [planned im 50 (strip (firstn (Z.to_nat cs) (strip text)))]).
Proof.
  intros Hne Hcs.
  destruct (strip text) as [|a u] eqn:Et; [congruence|].
  pose proof (strip_head _ Et) as Ha.
  assert (Hid : strip (a :: u) = a :: u) by (rewrite <- Et; apply strip_idem).
  destruct (text_chunks_first (t := a :: u) Hcs ltac:(discriminate))
    as [rest Ec].
  set (t0 := strip (firstn (Z.to_nat cs) (a :: u))).
  assert (Ht0 : is_empty t0 = false).
  { unfold t0; rewrite firstn_cons_pos by lia.
    now rewrite strip_cons_nonspace. }
  intros Hfail.
  assert (Hloop : forall dm' mn',
             res (chunk_loop (firstn (Z.to_nat cs) (a :: u) :: rest)
                             dm' mn' [] s) = Fail OracleError
             /\ trace (chunk_loop (firstn (Z.to_nat cs) (a :: u) :: rest)
                                  dm' mn' [] s) = [planned dm' mn' t0]).
  { intros dm' mn'; cbn [chunk_loop]; fold t0; rewrite Ht0.
    rewrite res_bind, trace_bind, res_call, trace_call, Hfail.
    split; reflexivity. }
  split.
  - rewrite summarize_in_chunks_eq, Et; cbn [is_empty].
    destruct (Z.leb_spec (len (a :: u)) cs) as [Hle|Hgt].
    + assert (E : t0 = a :: u)
        by (unfold t0; rewrite firstn_all2 by (unfold len in Hle; lia);
            exact Hid).
      rewrite E in Hfail; rewrite res_call, trace_call, Hfail, E.
      split; reflexivity.
    + rewrite Ec; cbn [lift_value]; rewrite bind_ret_l.
      destruct (Hloop dm mn) as [Hr Ht].
      rewrite res_bind, trace_bind, Hr, Ht; split; reflexivity.
  - unfold summarize_text; rewrite Et; cbn [is_empty].
    rewrite Ec; cbn [lift_value]; rewrite bind_ret_l.
    destruct (Hloop im 50) as [Hr Ht].
    rewrite res_bind, trace_bind, Hr, Ht; split; reflexivity.
Qed.

Lemma bind_assoc {A B C} (m : M A) (f : A -> M B) (g : B -> M C) s :
  bind (bind m f) g s = bind m (fun x => bind (f x) g) s.
Proof.
  unfold bind; destruct (res (m s)) as [a|e]; cbn [res final trace];
    [|reflexivity].
  destruct (res (f a (final (m s)))) as [b|e]; cbn [res final trace];
    [|reflexivity].
  now rewrite app_assoc.
Qed.

Lemma summarize_text_one_chunk fuel text cs im fm s :
  strip text <> [] -> len (strip text) <= cs ->
  summarize_text fuel text cs im fm s
  = bind (call_summarizer (strip text)
            (determine_max_length (strip text) im 50) 50)
         (fun summary => summarize_in_chunks fuel summary cs fm 50) s.
Proof.
  intros Hne Hlen; unfold summarize_text.
  rewrite (text_chunks_single Hne Hlen); cbn [lift_value].
  apply is_empty_false in Hne; rewrite Hne, bind_ret_l.
  cbn [chunk_loop]; rewrite strip_idem, Hne, bind_assoc.
  apply bind_ext; intros y s'; now rewrite bind_ret_l.
Qed.

(** X6: a text that fits in one chunk is summarized twice by
    [summarize_text]: once as the single chunk of the first pass, and,
    when that summary is not blank and fits in a chunk, once more by
    [summarize_in_chunks] on the trimmed summary; the second answer is
    what is returned. *)
Theorem short_text_summarized_twice fuel text cs im fm s y :
  strip text <> [] -> len (strip text) <= cs ->
  fst (summarizer s (strip text) (determine_max_length (strip text) im 50)
                  50 false) = Some y ->
  strip y <> [] -> len (strip y) <= cs ->
  trace (summarize_text fuel text cs im fm s)
  = [planned im 50 (strip text); planned fm 50 (strip y)]
  /\ res (summarize_text fuel text cs im fm s)
     = match fst (summarizer
                    (snd (summarizer s (strip text)
                            (determine_max_length (strip text) im 50) 50 false))
                    (strip y) (determine_max_length (strip y) fm 50) 50 false)
       with
       | Some final_summary => Ret final_summary
       | None => Fail OracleError
       end.
Proof.
  intros Hne Hlen Hy Hyne Hylen.
  rewrite (@summarize_text_one_chunk fuel text cs im fm s Hne Hlen).
  rewrite trace_bind, res_bind, res_call, trace_call, final_call, Hy.
  rewrite summarize_in_chunks_eq.
  apply is_empty_false in Hyne; rewrite Hyne.
  destruct (Z.leb_spec (len (strip y)) cs); [|lia].
  rewrite trace_call, res_call; split; reflexivity.
Qed.

(** X7: one level of chunking.  When the trimmed text is longer than a
    chunk and the joined chunk summaries fit in a chunk, the calls of
    [summarize_in_chunks] are, in order, one per chunk that is not white
    space only, on the stripped chunk, then one on the joined summaries:
    between 2 and [len(chunks) + 1] calls. *)
Theorem one_level_calls fuel text cs dm mn s chunks sums :
  cs < len (strip text) ->
  text_chunks (strip text) cs = Some chunks ->
  res (chunk_loop chunks dm mn [] s) = Ret sums ->
  len (join (py " ") sums) <= cs ->
  trace (summarize_in_chunks fuel text cs dm mn s)
  = List.map (planned dm mn)
             (List.map strip (filter (fun c => negb (blank c)) chunks))
    ++ [planned dm mn (join (py " ") sums)]
  /\ 2 <= len (trace (summarize_in_chunks fuel text cs dm mn s))
     <= len chunks + 1.
Proof.
  intros Hgt Ec Hloop Hfit.
  assert (Htrace : trace (summarize_in_chunks fuel text cs dm mn s)
                   = List.map (planned dm mn) (nonempty_chunks chunks)
                     ++ [planned dm mn (join (py " ") sums)]).
  { rewrite summarize_in_chunks_eq.
    destruct (strip text) as [|a u] eqn:Et;
      [unfold len in Hgt; simpl in Hgt; unfold len in Hfit; lia|].
    cbn [is_empty].
    destruct (Z.leb_spec (len (a :: u)) cs); [lia|].
    rewrite Ec; cbn [lift_value]; rewrite bind_ret_l, trace_bind, Hloop.
    destruct (Z.ltb_spec cs (len (join (py " ") sums))); [lia|].
    rewrite trace_call, chunk_loop_spec; cbn zeta; cbn [trace].
    rewrite res_chunk_loop in Hloop.
    destruct (summarize_all_trace (nonempty_chunks chunks) dm mn s)
      as [rest [E Hrest]].
    destruct (res (summarize_all (nonempty_chunks chunks) dm mn s))
      as [ys|e]; [|discriminate].
    rewrite (Hrest ys eq_refl), app_nil_r in E.
    now rewrite E. }
  split; [now rewrite Htrace, nonempty_chunks_filter|].
  rewrite Htrace; unfold len; rewrite length_app, length_map; simpl.
  pose proof (nonempty_chunks_length chunks).
  assert (1 <= List.length (nonempty_chunks chunks))%nat; [|lia].
  destruct (strip text) as [|a u] eqn:Et;
    [unfold len in Hgt; simpl in Hgt; unfold len in Hfit; lia|].
  pose proof (strip_head _ Et) as Ha.
  destruct (Z.lt_trichotomy cs 0) as [Hcs|[->|Hcs]].
  - unfold len in Hfit; lia.
  - discriminate.
  - destruct (text_chunks_head a u Hcs) as [w0 [rest Ec']].
    rewrite Ec' in Ec; injection Ec as <-.
    rewrite nonempty_chunks_cons, strip_cons_nonspace by exact Ha.
    simpl; lia.
Qed.



Lemma count_runs_lstrip (t : str) :
  count_runs true (lstrip t) = count_runs true t.
Proof.
  induction t as [|c r IH]; [reflexivity|]; simpl.
  destruct (isspace c) eqn:E; [exact IH|].
  simpl; now rewrite E.
Qed.

Lemma count_runs_blank (b : bool) (ws : str) :
  forallb isspace ws = true -> count_runs b ws = O.
Proof.
  revert b; induction ws as [|c r IH]; intros b; simpl; [reflexivity|].
  destruct (isspace c); [intros H; now apply IH|discriminate].
Qed.

Lemma count_runs_app_blank (ws t : str) :
  forallb isspace ws = true ->
  forall b, count_runs b (t ++ ws) = count_runs b t.
Proof.
  intros Hws; induction t as [|c r IH]; intros b; simpl.
  - now apply count_runs_blank.
  - destruct (isspace c); now rewrite IH.
Qed.

Lemma lstrip_decomp (t : str) :
  exists p, t = p ++ lstrip t /\ forallb isspace p = true.
Proof.
  induction t as [|c r [p [E Hp]]]; [exists []; split; reflexivity|].
  simpl; destruct (isspace c) eqn:Ec.
  - exists (c :: p); simpl; rewrite Ec, Hp; split; [now f_equal|reflexivity].
  - exists []; split; reflexivity.
Qed.

Lemma rstrip_decomp (t : str) :
  exists ws, t = rstrip t ++ ws /\ forallb isspace ws = true.
Proof.
  destruct (lstrip_decomp (rev t)) as [p [E Hp]].
  exists (rev p); split.
  - unfold rstrip; rewrite <- rev_app_distr, <- E; now rewrite rev_involutive.
  - apply forallb_forall; intros x Hx; apply in_rev in Hx.
    now apply (proj1 (forallb_forall _ _) Hp).
Qed.

Lemma word_count_strip (t : str) : word_count (strip t) = word_count t.
Proof.
  unfold word_count, strip; f_equal.
  rewrite <- (count_runs_lstrip t).
  set (u := lstrip t).
  destruct (rstrip_decomp u) as [ws [E Hws]].
  rewrite <- (count_runs_app_blank ws (rstrip u) Hws true).
  now rewrite <- E.
Qed.

(** X9: the planner does not see surrounding white space:
    [determine_max_length] gives the same length on a text and on its
    stripped form; a text that is not blank counts at least one word,
    and a blank one counts none, so that its plan is
    [min(default_max, max(0, min_length))]. *)
Theorem plan_ignores_surrounding_space (t : str) (dm mn : Z) :
  determine_max_length (strip t) dm mn = determine_max_length t dm mn
  /\ (strip t <> [] -> 1 <= word_count t)
  /\ (blank t = true ->
      determine_max_length t dm mn = Z.min dm (Z.max 0 mn)).
Proof.
  unfold determine_max_length; rewrite !split_word_count, word_count_strip.
  split; [reflexivity|split].
  - intros Hne; rewrite <- word_count_strip.
    destruct (strip t) as [|a u] eqn:Et; [congruence|].
    apply strip_head in Et; unfold word_count; simpl; rewrite Et; lia.
  - intros Hb; unfold word_count; now rewrite count_runs_blank.
Qed.


(** ** Annotation files *)

Lemma trimmed_strip (t : str) : trimmed (strip t).
Proof.
  split.
  - destruct (strip t) as [|a u] eqn:E; [reflexivity|].
    apply strip_head in E; simpl; now rewrite E.
  - unfold strip, rstrip; rewrite rev_involutive; apply lstrip_idem.
Qed.

Lemma trimmed_fixed (t : str) : trimmed t -> strip t = t.
Proof.
  intros [H1 H2]; unfold strip, rstrip.
  now rewrite H1, H2, rev_involutive.
Qed.

Lemma lstrip_fixed_app (x z : str) :
  lstrip x = x -> x <> [] -> lstrip (x ++ z) = x ++ z.
Proof.
  intros H Hne; destruct x as [|a u]; [congruence|].
  pose proof (lstrip_head _ H) as Ha; simpl; now rewrite Ha.
Qed.

Lemma trimmed_app (x m y : str) :
  trimmed x -> trimmed y -> x <> [] -> y <> [] -> trimmed (x ++ m ++ y).
Proof.
  intros [Hx _] [_ Hy] Hxne Hyne; split.
  - now apply lstrip_fixed_app.
  - rewrite !rev_app_distr, <- app_assoc.
    apply lstrip_fixed_app; [exact Hy|].
    intros E; apply Hyne; now rewrite <- (rev_involutive y), E.
Qed.

Lemma join_cons (sep p : str) (rest : list str) :
  rest <> [] -> join sep (p :: rest) = p ++ sep ++ join sep rest.
Proof. destruct rest; [congruence|reflexivity]. Qed.

Lemma join_trimmed (sep : str) (ls : list str) :
  Forall (fun l => trimmed l /\ l <> []) ls ->
  trimmed (join sep ls) /\ (ls <> [] -> join sep ls <> []).
Proof.
  induction 1 as [|l ls [Hl Hne] Hls [IH1 IH2]].
  - split; [split; reflexivity|congruence].
  - destruct ls as [|l' ls]; [split; [exact Hl|intros _; exact Hne]|].
    rewrite join_cons by discriminate.
    split.
    + apply trimmed_app; [exact Hl|exact IH1|exact Hne|].
      apply IH2; discriminate.
    + intros _ E; apply app_eq_nil in E as [E _]; now apply Hne.
Qed.

(** The loop keeps, in order and stripped, the lines that are neither
    time stamps nor empty. *)
Lemma clean_lines_filter (lines acc : list str) :
  clean_lines lines acc = acc ++ filter kept_line (List.map strip lines).
Proof.
  revert acc; induction lines as [|l lines IH]; intros acc; simpl.
  - now rewrite app_nil_r.
  - unfold kept_line at 1.
    destruct (startswith (strip l) (py "Start:")); simpl; [apply IH|].
    destruct (is_empty (strip l)); simpl; [apply IH|].
    now rewrite IH, <- app_assoc.
Qed.

Lemma kept_lines_trimmed (lines : list str) :
  Forall (fun l => trimmed l /\ l <> [])
         (filter kept_line (List.map strip lines)).
Proof.
  apply Forall_forall; intros l Hl.
  apply filter_In in Hl as [Hin Hk].
  apply in_map_iff in Hin as [l0 [<- _]].
  split; [apply trimmed_strip|].
  unfold kept_line in Hk; apply andb_prop in Hk as [_ Hk].
  apply is_empty_false; now destruct (is_empty (strip l0)).
Qed.

(** X10: the text [parse_annotation_file] returns has no white space at
    either end, so stripping it (as [summarize_folder] does before its
    test, and [summarize_text] on entry) changes nothing; and it is
    empty exactly when every line of the file is blank or, once
    stripped, starts with "Start:". *)
Theorem parsed_text_is_trimmed (content : str) :
  strip (parse_annotation_file content) = parse_annotation_file content
  /\ (is_empty (strip (parse_annotation_file content)) = true
      <-> Forall (fun line => blank line = true
                              \/ startswith (strip line) (py "Start:") = true)
                 (file_lines content)).
Proof.
  unfold parse_annotation_file; cbn zeta.
  rewrite clean_lines_filter; cbn [app].
  pose proof (kept_lines_trimmed (file_lines content)) as Hk.
  destruct (join_trimmed (py " ") Hk) as [Ht Hne].
  rewrite (trimmed_fixed Ht); split; [reflexivity|].
  rewrite is_empty_true; split.
  - intros E.
    assert (En : filter kept_line (List.map strip (file_lines content)) = []).
    { destruct (filter kept_line (List.map strip (file_lines content)));
        [reflexivity|exfalso; apply Hne; [discriminate|exact E]]. }
    apply Forall_forall; intros l Hl.
    destruct (startswith (strip l) (py "Start:")) eqn:Es; [now right|left].
    rewrite <- is_empty_strip.
    destruct (is_empty (strip l)) eqn:Ee; [reflexivity|exfalso].
    assert (Hin : In (strip l)
                     (filter kept_line (List.map strip (file_lines content)))).
    { apply filter_In; split; [now apply in_map|].
      unfold kept_line; now rewrite Es, Ee. }
    now rewrite En in Hin.
  - intros Hall.
    assert (En : filter kept_line (List.map strip (file_lines content)) = []).
    { clear Hk Ht Hne.
      induction (file_lines content) as [|l ls IH]; [reflexivity|].
      apply Forall_cons_iff in Hall as [Hl Hls]; simpl.
      unfold kept_line at 1; rewrite is_empty_strip.
      destruct Hl as [-> | ->]; simpl; rewrite ?andb_false_r; now apply IH. }
    now rewrite En.
Qed.


Lemma split_go_blank (ws cur : str) :
  forallb isspace ws = true -> split_go cur ws = split_go cur [].
Proof.
  revert cur; induction ws as [|c r IH]; intros cur; [reflexivity|]; simpl.
  destruct (isspace c); [|discriminate].
  intros H; rewrite (IH [] H); simpl; reflexivity.
Qed.

Lemma split_go_app_blank (ws t : str) :
  forallb isspace ws = true ->
  forall cur, split_go cur (t ++ ws) = split_go cur t.
Proof.
  intros Hws; induction t as [|c r IH]; intros cur.
  - now apply split_go_blank.
  - simpl; destruct (isspace c); rewrite ?IH; reflexivity.
Qed.

Lemma split_lstrip (t : str) : split (lstrip t) = split t.
Proof.
  unfold split; induction t as [|c r IH]; [reflexivity|]; simpl.
  destruct (isspace c) eqn:E; [exact IH|].
  simpl; now rewrite E.
Qed.

Lemma split_strip (t : str) : split (strip t) = split t.
Proof.
  unfold strip; rewrite <- (split_lstrip t).
  set (u := lstrip t).
  destruct (rstrip_decomp u) as [ws [E Hws]].
  unfold split; rewrite <- (split_go_app_blank ws (rstrip u) Hws []).
  now rewrite <- E.
Qed.

(** The words of two texts put side by side with a white space between
    them are the words of the first, then those of the second. *)
Lemma split_go_app_space (sp : char) (y : str) :
  isspace sp = true ->
  forall x cur,
    split_go cur (x ++ sp :: y) = split_go cur x ++ split y.
Proof.
  intros Hsp; induction x as [|c r IH]; intros cur; simpl.
  - rewrite Hsp; now destruct (is_empty cur).
  - destruct (isspace c); [|apply IH].
    destruct (is_empty cur); rewrite IH; reflexivity.
Qed.

Lemma split_join (ls : list str) :
  split (join (py " ") ls) = flat_map split ls.
Proof.
  induction ls as [|l ls IH]; [reflexivity|].
  destruct ls as [|l' ls]; [simpl; now rewrite app_nil_r|].
  rewrite join_cons by discriminate.
  change (py " " ++ join (py " ") (l' :: ls))
    with (32%N :: join (py " ") (l' :: ls)).
  unfold split at 1; rewrite split_go_app_space by reflexivity.
  now rewrite IH.
Qed.

Lemma split_blank (t : str) : blank t = true -> split t = [].
Proof. intros H; unfold split; now rewrite split_go_blank. Qed.

(** X11: parsing loses no word: the words of the text returned by
    [parse_annotation_file] are, in order, the words of the lines of
    the file that do not start with "Start:" once stripped. *)
Theorem parsed_text_keeps_words (content : str) :
  split (parse_annotation_file content)
  = flat_map split
      (filter (fun line => negb (startswith (strip line) (py "Start:")))
              (file_lines content)).
Proof.
  unfold parse_annotation_file; cbn zeta.
  rewrite clean_lines_filter, split_join; cbn [app].
  induction (file_lines content) as [|l ls IH]; [reflexivity|]; simpl.
  unfold kept_line at 1.
  destruct (startswith (strip l) (py "Start:")); simpl; [exact IH|].
  destruct (is_empty (strip l)) eqn:Ee; simpl.
  - rewrite is_empty_strip in Ee; now rewrite (split_blank _ Ee).
  - now rewrite split_strip, IH.
Qed.


(** ** The folder run *)

Lemma extends_refl (fs : filesys) : extends fs fs.
Proof. intros p n H; exact H. Qed.

Lemma extends_trans (a b c : filesys) :
  extends a b -> extends b c -> extends a c.
Proof. intros Hab Hbc p n H; apply Hbc, Hab, H. Qed.

Lemma extends_new (fs : filesys) (path : str) (n : node) :
  path_exists fs path = false -> extends fs ((path, n) :: fs).
Proof.
  intros Hnew p n' H; simpl.
  destruct (list_eq_dec N.eq_dec path p) as [->|_]; [|exact H].
  unfold path_exists in Hnew; now rewrite H in Hnew.
Qed.

Lemma extends_exists (a b : filesys) (path : str) :
  extends a b -> path_exists a path = true -> path_exists b path = true.
Proof.
  unfold path_exists; intros Hab H.
  destruct (lookup a path) as [n|] eqn:E; [|discriminate].
  now rewrite (Hab _ _ E).
Qed.

Lemma extends_read (a b : filesys) (path content : str) :
  extends a b -> read_text a path = Some content ->
  read_text b path = Some content.
Proof.
  unfold read_text; intros Hab H.
  destruct (lookup a path) as [n|] eqn:E; [|discriminate].
  now rewrite (Hab _ _ E).
Qed.

Lemma lookup_head (fs : filesys) (path : str) (n : node) :
  lookup ((path, n) :: fs) path = Some n.
Proof. simpl; now destruct (list_eq_dec N.eq_dec path path). Qed.

(** The loop only adds files, at paths where nothing was. *)
Lemma summarize_files_extends fuel folder txt_files :
  forall fs s, extends fs (ffs (summarize_files fuel folder txt_files fs s)).
Proof.
  induction txt_files as [|f rest IH]; intros fs s; cbn [summarize_files].
  - apply extends_refl.
  - cbn zeta.
    destruct (path_exists fs _) eqn:Ex; [apply IH|].
    destruct (read_text fs _) as [content|]; [|apply extends_refl].
    destruct (is_empty _); [apply IH|].
    destruct (res _) as [summary|e]; [|apply extends_refl].
    destruct (can_create _); [|apply extends_refl].
    destruct (write_error _ _) as [partial|]; [now apply extends_new|].
    cbn [ffs]; eapply extends_trans; [|apply IH].
    now apply extends_new.
Qed.

(** X12: [summarize_folder] never overwrites: whatever exists before
    the run, file or directory, is there unchanged after it, however
    the run ends. *)
Theorem existing_files_untouched fuel listing folder fs s path n :
  lookup fs path = Some n ->
  lookup (ffs (summarize_folder fuel listing folder fs s)) path = Some n.
Proof.
  unfold summarize_folder; cbn zeta.
  destruct (is_empty _); [intros H; exact H|].
  apply summarize_files_extends.
Qed.

Lemma summarize_files_again fuel fuel' folder txt_files :
  forall fs s,
    fres (summarize_files fuel folder txt_files fs s) = None ->
    forall fs2 s2,
      extends (ffs (summarize_files fuel folder txt_files fs s)) fs2 ->
      summarize_files fuel' folder txt_files fs2 s2
      = mkFolderRun None fs2 s2 [].
Proof.
  induction txt_files as [|f rest IH]; intros fs s Hdone fs2 s2 Hext;
    [reflexivity|].
  cbn [summarize_files] in *; cbn zeta in *.
  set (file_path := path_join folder f) in *.
  set (summary_path := replace file_path (py ".txt") (py ".summary")) in *.
  destruct (path_exists fs summary_path) eqn:Ex.
  - pose proof (summarize_files_extends fuel folder rest fs s) as Hfs.
    rewrite (@extends_exists fs fs2 summary_path (extends_trans Hfs Hext) Ex).
    now apply (IH fs s).
  - destruct (read_text fs file_path) as [content|] eqn:Er; [|discriminate].
    destruct (is_empty (strip (parse_annotation_file content))) eqn:Eb.
    + pose proof (summarize_files_extends fuel folder rest fs s) as Hfs.
      destruct (path_exists fs2 summary_path); [now apply (IH fs s)|].
      rewrite (@extends_read fs fs2 file_path content
                 (extends_trans Hfs Hext) Er), Eb.
      now apply (IH fs s).
    + destruct (res (summarize_text fuel (parse_annotation_file content)
                       1024 500 500 s)) as [summary|e]; [|discriminate].
      destruct (can_create summary_path); [|discriminate].
      destruct (write_error summary_path summary) as [partial|]; [discriminate|].
      cbn [fres ffs] in *.
      set (fs1 := (summary_path, File summary) :: fs) in *.
      set (s1 := final (summarize_text fuel (parse_annotation_file content)
                          1024 500 500 s)) in *.
      pose proof (summarize_files_extends fuel folder rest fs1 s1) as Hfs.
      assert (E1 : path_exists fs1 summary_path = true)
        by (unfold path_exists, fs1; now rewrite lookup_head).
      rewrite (@extends_exists fs1 fs2 summary_path
                 (extends_trans Hfs Hext) E1).
      now apply (IH fs1 s1).
Qed.

(** X13: after a folder run that completed, a second run over the same
    listing does nothing: no oracle call, no file written, whatever the
    oracle state and the depth it is given. *)
Theorem second_run_does_nothing fuel fuel' listing folder fs s s2 :
  fres (summarize_folder fuel listing folder fs s) = None ->
  summarize_folder fuel' listing folder
    (ffs (summarize_folder fuel listing folder fs s)) s2
  = mkFolderRun None (ffs (summarize_folder fuel listing folder fs s)) s2 [].
Proof.
  unfold summarize_folder; cbn zeta.
  destruct (is_empty _); [reflexivity|].
  intros Hdone; eapply summarize_files_again; [exact Hdone|].
  apply extends_refl.
Qed.

Lemma summarize_files_trace_Forall (P : call -> Prop) fuel folder :
  (forall text s, Forall P (trace (summarize_text fuel text 1024 500 500 s))) ->
  forall txt_files fs s,
    Forall P (ftrace (summarize_files fuel folder txt_files fs s)).
Proof.
  intros HP txt_files; induction txt_files as [|f rest IH]; intros fs s;
    cbn [summarize_files]; [constructor|].
  cbn zeta.
  destruct (path_exists fs _); [apply IH|].
  destruct (read_text fs _) as [content|]; [|constructor].
  destruct (is_empty _); [apply IH|].
  destruct (res _) as [summary|e]; [|apply HP].
  destruct (can_create _); [|apply HP].
  destruct (write_error _ _) as [partial|]; [apply HP|].
  cbn [ftrace]; apply Forall_app; split; [apply HP|apply IH].
Qed.

(** X14: every oracle call of a folder run is made on a text of at most
    1024 characters, with [50 <= max_length <= 500], [min_length = 50]
    and without sampling. *)
Theorem folder_calls_within_limits fuel listing folder fs s :
  Forall (fun c => len (call_text c) <= 1024
                   /\ 50 <= call_max_length c <= 500
                   /\ call_min_length c = 50
                   /\ call_do_sample c = false)
         (ftrace (summarize_folder fuel listing folder fs s)).
Proof.
  unfold summarize_folder; cbn zeta.
  destruct (is_empty _); [constructor|].
  apply summarize_files_trace_Forall; intros text s'.
  set (Q := fun c => 50 <= call_max_length c <= 500
                     /\ call_min_length c = 50 /\ call_do_sample c = false).
  assert (HQ : forall t, Q (planned 500 50 t)).
  { intros t; unfold Q; simpl.
    pose proof (determine_max_length_le t 500 50).
    pose proof (@determine_max_length_ge t 500 50 ltac:(lia)).
    repeat split; lia. }
  destruct (@summarize_text_trace_split Q Q 500 500 HQ HQ fuel text 1024 s')
    as [first [second [E [H1 H2]]]].
  assert (Hlen : Forall (fun c => len (call_text c) <= 1024)
                        (trace (summarize_text fuel text 1024 500 500 s'))).
  { apply summarize_text_trace_texts; [intros; assumption|].
    intros fuel' text' s''.
    apply summarize_in_chunks_trace_texts; intros; assumption. }
  rewrite E in *.
  pose proof (proj2 (Forall_app _ _ _) (conj H1 H2)) as HQall.
  apply Forall_forall; intros c Hc.
  split; [exact (proj1 (Forall_forall _ _) Hlen c Hc)|].
  exact (proj1 (Forall_forall _ _) HQall c Hc).
Qed.


Lemma summarize_files_written fuel folder txt_files :
  forall fs s p n,
    lookup (ffs (summarize_files fuel folder txt_files fs s)) p = Some n ->
    lookup fs p = Some n
    \/ (path_exists fs p = false
        /\ exists name content summary s',
            In name txt_files
            /\ p = replace (path_join folder name) (py ".txt") (py ".summary")
            /\ read_text (ffs (summarize_files fuel folder txt_files fs s))
                         (path_join folder name) = Some content
            /\ is_empty (strip (parse_annotation_file content)) = false
            /\ res (summarize_text fuel (parse_annotation_file content)
                      1024 500 500 s') = Ret summary
            /\ ((write_error p summary = None /\ n = File summary)
                \/ (exists partial,
                       write_error p summary = Some partial
                       /\ n = File partial
                       /\ fres (summarize_files fuel folder txt_files fs s)
                          = Some (WriteError p)))).
Proof.
  induction txt_files as [|f rest IH]; intros fs s p n;
    cbn [summarize_files]; [intros H; now left|].
  cbn zeta.
  set (file_path := path_join folder f).
  set (summary_path := replace file_path (py ".txt") (py ".summary")).
  assert (Hskip :
    lookup (ffs (summarize_files fuel folder rest fs s)) p = Some n ->
    lookup fs p = Some n
    \/ (path_exists fs p = false
        /\ exists name content summary s',
            In name (f :: rest)
            /\ p = replace (path_join folder name) (py ".txt") (py ".summary")
            /\ read_text (ffs (summarize_files fuel folder rest fs s))
                         (path_join folder name) = Some content
            /\ is_empty (strip (parse_annotation_file content)) = false
            /\ res (summarize_text fuel (parse_annotation_file content)
                      1024 500 500 s') = Ret summary
            /\ ((write_error p summary = None /\ n = File summary)
                \/ (exists partial,
                       write_error p summary = Some partial
                       /\ n = File partial
                       /\ fres (summarize_files fuel folder rest fs s)
                          = Some (WriteError p))))).
  { intros H; destruct (IH fs s p n H)
      as [Hold|[Hnew [name [content [summary [s' [Hin Hrest]]]]]]];
      [now left|right].
    split; [exact Hnew|].
    exists name, content, summary, s'; split; [now right|exact Hrest]. }
  destruct (path_exists fs summary_path) eqn:Ex; [exact Hskip|].
  destruct (read_text fs file_path) as [content|] eqn:Er;
    [|intros H; now left].
  destruct (is_empty (strip (parse_annotation_file content))) eqn:Eb;
    [exact Hskip|].
  destruct (res (summarize_text fuel (parse_annotation_file content)
                   1024 500 500 s)) as [summary|e] eqn:Es;
    [|intros H; now left].
  destruct (can_create summary_path); [|intros H; now left].
  destruct (write_error summary_path summary) as [partial|] eqn:Ew.
  - (* the write raised: the file is left with [partial], the run ends *)
    cbn [ffs fres].
    pose proof (@extends_new fs summary_path (File partial) Ex) as Hfs1.
    intros H; simpl in H.
    destruct (list_eq_dec N.eq_dec summary_path p) as [<-|_]; [|now left].
    injection H as <-; right; split; [exact Ex|].
    exists f, content, summary, s; repeat split; try assumption.
    + now left.
    + fold file_path.
      exact (@extends_read fs _ file_path content Hfs1 Er).
    + right; exists partial; repeat split; assumption.
  - cbn [ffs fres].
    set (fs1 := (summary_path, File summary) :: fs).
    set (s1 := final (summarize_text fuel (parse_annotation_file content)
                        1024 500 500 s)).
    pose proof (@extends_new fs summary_path (File summary) Ex) as Hfs1;
      fold fs1 in Hfs1.
    pose proof (summarize_files_extends fuel folder rest fs1 s1) as Hend.
    intros H; destruct (IH fs1 s1 p n H)
      as [Hold|[Hnew [name [content' [summary' [s' [Hin Hrest]]]]]]].
    + unfold fs1 in Hold; simpl in Hold.
      destruct (list_eq_dec N.eq_dec summary_path p) as [<-|_]; [|now left].
      injection Hold as <-; right; split; [exact Ex|].
      exists f, content, summary, s; repeat split; try assumption.
      * now left.
      * fold file_path.
        exact (@extends_read fs _ file_path content
                 (extends_trans Hfs1 Hend) Er).
      * left; split; [assumption|reflexivity].
    + right; split.
      * destruct (path_exists fs p) eqn:Ep; [|reflexivity].
        now rewrite (@extends_exists fs fs1 p Hfs1 Ep) in Hnew.
      * exists name, content', summary', s'; split; [now right|exact Hrest].
Qed.

(** X15: what a folder run adds.  A path that holds something after the
    run either held it before, or held nothing and is the path of a
    listed ".txt" file with every ".txt" replaced by ".summary".  The
    parsed text of that ".txt" file was not blank and [summarize_text]
    returned a summary for it, with [(1024, 500, 500)]; the new file
    holds that summary when the write went through, and what the write
    left (nothing, or a part) when it raised, in which case the run
    ended there on that error. *)
Theorem folder_run_adds_summaries fuel listing folder fs s p n :
  lookup (ffs (summarize_folder fuel listing folder fs s)) p = Some n ->
  lookup fs p = Some n
  \/ (path_exists fs p = false
      /\ exists name content summary s',
          In name listing
          /\ endswith name (py ".txt") = true
          /\ p = replace (path_join folder name) (py ".txt") (py ".summary")
          /\ read_text (ffs (summarize_folder fuel listing folder fs s))
                       (path_join folder name) = Some content
          /\ is_empty (strip (parse_annotation_file content)) = false
          /\ res (summarize_text fuel (parse_annotation_file content)
                    1024 500 500 s') = Ret summary
          /\ ((write_error p summary = None /\ n = File summary)
              \/ (exists partial,
                     write_error p summary = Some partial
                     /\ n = File partial
                     /\ fres (summarize_folder fuel listing folder fs s)
                        = Some (WriteError p)))).
Proof.
  unfold summarize_folder; cbn zeta.
  destruct (is_empty _); [intros H; now left|].
  intros H; destruct (summarize_files_written _ _ _ _ _ _ H)
    as [Hold|[Hnew [name [content [summary [s' [Hin Hrest]]]]]]];
    [now left|right].
  split; [exact Hnew|].
  apply filter_In in Hin as [Hin Hend].
  exists name, content, summary, s'; repeat split; try tauto.
Qed.

Lemma replace_go_extension (base : str) :
  (forall k, (k < List.length base)%nat ->
             startswith (skipn k (base ++ py ".txt")) (py ".txt") = false) ->
  replace_go (py ".txt") (py ".summary") 0 (base ++ py ".txt")
  = base ++ py ".summary".
Proof.
  induction base as [|c r IH]; intros H; [reflexivity|].
  pose proof (H O ltac:(simpl; lia)) as H0.
  change (skipn 0 ((c :: r) ++ py ".txt")) with (c :: r ++ py ".txt") in H0.
  cbn [app replace_go]; rewrite H0; f_equal.
  apply IH; intros k Hk.
  exact (H (S k) ltac:(simpl; lia)).
Qed.

(** X16: for a path that ends with ".txt" and has no other occurrence
    of ".txt", the summary path is the path with the extension
    ".summary" in place of ".txt". *)
Theorem summary_path_changes_extension (base : str) :
  (forall k, (k < List.length base)%nat ->
             startswith (skipn k (base ++ py ".txt")) (py ".txt") = false) ->
  replace (base ++ py ".txt") (py ".txt") (py ".summary")
  = base ++ py ".summary".
Proof. intros H; now apply replace_go_extension. Qed.




(** ** Annotation files written by the transcription *)

Lemma universal_newlines_id (t : str) :
  forallb (fun c => negb (c =? 13)%N) t = true -> universal_newlines t = t.
Proof.
  induction t as [|c r IH]; [reflexivity|]; simpl.
  destruct (c =? 13)%N; [discriminate|].
  intros H; now rewrite IH.
Qed.

Lemma file_lines_go_line (l rest : str) :
  forallb (fun c => negb (c =? 10)%N) l = true ->
  forall cur,
    file_lines_go cur (l ++ 10%N :: rest)
    = (cur ++ l ++ [10%N]) :: file_lines_go [] rest.
Proof.
  intros Hl; induction l as [|c r IH]; intros cur; [reflexivity|].
  simpl in Hl; apply andb_prop in Hl as [Hc Hr].
  simpl; destruct (c =? 10)%N; [discriminate|].
  rewrite (IH Hr), <- app_assoc; reflexivity.
Qed.

Lemma lstrip_app (x y : str) :
  lstrip (x ++ y) = if blank x then lstrip y else lstrip x ++ y.
Proof.
  induction x as [|c r IH]; [reflexivity|]; simpl.
  destruct (isspace c); [exact IH|reflexivity].
Qed.

Lemma blank_rev (t : str) : blank (rev t) = blank t.
Proof.
  unfold blank; destruct (forallb isspace t) eqn:E.
  - apply forallb_forall; intros x Hx; apply in_rev in Hx.
    now apply (proj1 (forallb_forall _ _) E).
  - destruct (forallb isspace (rev t)) eqn:E'; [|reflexivity].
    rewrite <- E; symmetry; apply forallb_forall; intros x Hx.
    apply (proj1 (forallb_forall _ _) E'); now apply in_rev in Hx.
Qed.

Lemma rstrip_app_blank (t ws : str) :
  blank ws = true -> rstrip (t ++ ws) = rstrip t.
Proof.
  intros H; unfold rstrip.
  now rewrite rev_app_distr, lstrip_app, blank_rev, H.
Qed.

Lemma strip_app_blank (t ws : str) :
  blank ws = true -> strip (t ++ ws) = strip t.
Proof.
  intros H; unfold strip; rewrite lstrip_app.
  destruct (blank t) eqn:Et.
  - apply lstrip_nil_iff in H; rewrite H.
    apply lstrip_nil_iff in Et; now rewrite Et.
  - now apply rstrip_app_blank.
Qed.

Lemma startswith_app (p z : str) : startswith (p ++ z) p = true.
Proof.
  induction p as [|c r IH]; [now destruct z|]; simpl.
  now rewrite N.eqb_refl.
Qed.

(** A prefix without white space at its ends survives stripping. *)
Lemma strip_keeps_prefix (p q : str) :
  trimmed p -> p <> [] -> exists z, strip (p ++ q) = p ++ z.
Proof.
  intros [Hl Hr] Hne; unfold strip.
  rewrite lstrip_fixed_app by assumption.
  unfold rstrip; rewrite rev_app_distr, lstrip_app.
  destruct (blank (rev q)).
  - exists []; now rewrite Hr, rev_involutive, app_nil_r.
  - exists (rev (lstrip (rev q))).
    now rewrite rev_app_distr, rev_involutive.
Qed.

Lemma kept_lines_of_segment (seg : segment) :
  filter kept_line
    (List.map strip
       [py "Start: " ++ seg_start seg ++ py " - End: " ++ seg_end seg
        ++ [10%N];
        seg_text seg ++ [10%N];
        [10%N]])
  = filter kept_line [strip (seg_text seg)].
Proof.
  cbn [List.map filter].
  assert (Hstamp : kept_line
            (strip (py "Start: " ++ seg_start seg ++ py " - End: "
                    ++ seg_end seg ++ [10%N])) = false).
  { change (py "Start: " ++ seg_start seg ++ py " - End: "
            ++ seg_end seg ++ [10%N])
      with (py "Start:" ++ (32%N :: seg_start seg ++ py " - End: "
                                 ++ seg_end seg ++ [10%N])).
    destruct (@strip_keeps_prefix (py "Start:")
                (32%N :: seg_start seg ++ py " - End: "
                      ++ seg_end seg ++ [10%N]))
      as [z Ez]; [split; reflexivity|discriminate|].
    unfold kept_line; now rewrite Ez, startswith_app. }
  rewrite Hstamp, (strip_app_blank (seg_text seg) [10%N] eq_refl).
  change (kept_line (strip [10%N])) with false.
  reflexivity.
Qed.

Lemma file_lines_go_save (segments : list segment) :
  Forall (fun seg => no_line_break (seg_start seg) = true
                     /\ no_line_break (seg_end seg) = true
                     /\ no_line_break (seg_text seg) = true) segments ->
  file_lines_go [] (save_annotation segments)
  = flat_map (fun seg =>
                [py "Start: " ++ seg_start seg ++ py " - End: " ++ seg_end seg
                 ++ [10%N];
                 seg_text seg ++ [10%N];
                 [10%N]])
             segments.
Proof.
  assert (Hnl : forall t, no_line_break t = true ->
                          forallb (fun c => negb (c =? 10)%N) t = true).
  { intros t H; apply forallb_forall; intros x Hx.
    apply (proj1 (forallb_forall _ _) H) in Hx.
    now apply andb_prop in Hx as [Hx _]. }
  induction 1 as [|seg segments [Hs [He Ht]] _ IH]; [reflexivity|].
  cbn [save_annotation flat_map]; fold (save_annotation segments).
  replace ((py "Start: " ++ seg_start seg ++ py " - End: " ++ seg_end seg
            ++ [10%N] ++ seg_text seg ++ [10%N; 10%N])
           ++ save_annotation segments)
    with ((py "Start: " ++ seg_start seg ++ py " - End: " ++ seg_end seg)
          ++ 10%N :: (seg_text seg ++ 10%N :: ([] ++ 10%N
                        :: save_annotation segments)))
    by (repeat rewrite <- app_assoc; reflexivity).
  rewrite file_lines_go_line.
  2:{ rewrite !forallb_app.
      repeat (apply andb_true_intro; split); try reflexivity; now apply Hnl. }
  rewrite file_lines_go_line by now apply Hnl.
  rewrite file_lines_go_line by reflexivity.
  rewrite IH; simpl; rewrite <- !app_assoc; reflexivity.
Qed.

Lemma save_annotation_no_cr (segments : list segment) :
  Forall (fun seg => no_line_break (seg_start seg) = true
                     /\ no_line_break (seg_end seg) = true
                     /\ no_line_break (seg_text seg) = true) segments ->
  forallb (fun c => negb (c =? 13)%N) (save_annotation segments) = true.
Proof.
  assert (Hcr : forall t, no_line_break t = true ->
                          forallb (fun c => negb (c =? 13)%N) t = true).
  { intros t H; apply forallb_forall; intros x Hx.
    apply (proj1 (forallb_forall _ _) H) in Hx.
    now apply andb_prop in Hx as [_ Hx]. }
  induction 1 as [|seg segments [Hs [He Ht]] _ IH]; [reflexivity|].
  cbn [save_annotation flat_map]; fold (save_annotation segments).
  rewrite !forallb_app.
  repeat (apply andb_true_intro; split); try reflexivity;
    try (now apply Hcr); exact IH.
Qed.

(** X18: reading back what the transcription wrote.  When no time
    stamp and no segment text holds a line break, parsing the
    annotation file that [save_annotation] writes gives the segment
    texts, stripped and joined by single spaces, in order, without the
    time stamps; a text that is blank, or that starts with "Start:" once
    stripped, is left out. *)
Theorem parse_of_saved_annotation (segments : list segment) :
  Forall (fun seg => no_line_break (seg_start seg) = true
                     /\ no_line_break (seg_end seg) = true
                     /\ no_line_break (seg_text seg) = true) segments ->
  parse_annotation_file (save_annotation segments)
  = join (py " ")
         (filter kept_line
                 (List.map (fun seg => strip (seg_text seg)) segments)).
Proof.
  intros H; unfold parse_annotation_file, file_lines; cbn zeta.
  rewrite (universal_newlines_id _ (save_annotation_no_cr H)).
  rewrite (file_lines_go_save H), clean_lines_filter; cbn [app].
  f_equal; clear H.
  induction segments as [|seg segments IH]; [reflexivity|].
  cbn [flat_map List.map].
  change (List.map strip
            ([py "Start: " ++ seg_start seg ++ py " - End: " ++ seg_end seg
              ++ [10%N]; seg_text seg ++ [10%N]; [10%N]]
             ++ flat_map (fun seg0 =>
                  [py "Start: " ++ seg_start seg0 ++ py " - End: "
                   ++ seg_end seg0 ++ [10%N];
                   seg_text seg0 ++ [10%N]; [10%N]]) segments))
    with (List.map strip
            [py "Start: " ++ seg_start seg ++ py " - End: " ++ seg_end seg
             ++ [10%N]; seg_text seg ++ [10%N]; [10%N]]
          ++ List.map strip
               (flat_map (fun seg0 =>
                  [py "Start: " ++ seg_start seg0 ++ py " - End: "
                   ++ seg_end seg0 ++ [10%N];
                   seg_text seg0 ++ [10%N]; [10%N]]) segments)).
  rewrite filter_app, kept_lines_of_segment, IH.
  cbn [filter]; now destruct (kept_line (strip (seg_text seg))).
Qed.


(** X19: the edges of the chunking step: a text that is not empty and
    fits in [chunk_size] is its own single chunk; an empty text has no
    chunk; a negative [chunk_size] gives no chunk at all; a zero
    [chunk_size] raises. *)
Theorem chunking_edge_cases (t : str) (cs : Z) :
  (t <> [] -> len t <= cs -> text_chunks t cs = Some [t])
  /\ (cs <> 0 -> text_chunks [] cs = Some [])
  /\ (cs < 0 -> text_chunks t cs = Some [])
  /\ text_chunks t 0 = None.
Proof.
  split; [apply text_chunks_single|split; [|split]].
  - intros Hcs; destruct (Z.lt_trichotomy cs 0) as [H|[H|H]]; [|lia|].
    + now apply text_chunks_neg.
    + rewrite text_chunks_pos by exact H.
      now rewrite range_len_zero.
  - apply text_chunks_neg.
  - apply text_chunks_zero.
Qed.

Lemma res_call_answer t mx mn s y :
  res (call_summarizer t mx mn s) = Ret y -> answer y.
Proof.
  rewrite res_call; destruct (fst _) as [y'|] eqn:E; [|discriminate].
  intros H; injection H as <-; now exists s, t, mx, mn.
Qed.

Lemma summarize_in_chunks_ret cs dm mn fuel :
  forall text s y,
    res (summarize_in_chunks fuel text cs dm mn s) = Ret y ->
    y = sentinel \/ answer y.
Proof.
  induction fuel as [|fuel IH]; intros text s y;
    rewrite summarize_in_chunks_eq.
  all: destruct (is_empty (strip text));
    [intros H; injection H as <-; now left|].
  all: destruct (len (strip text) <=? cs);
    [intros H; right; exact (res_call_answer _ _ _ _ H)|].
  all: rewrite res_bind.
  all: destruct (text_chunks (strip text) cs) as [chunks|]; [|discriminate].
  all: cbn [lift_value ret res final]; rewrite res_bind.
  all: destruct (res (chunk_loop chunks dm mn [] s)) as [sums|e];
    [|discriminate].
  all: destruct (cs <? len _);
    [|intros H; right; exact (res_call_answer _ _ _ _ H)].
  - discriminate.
  - apply IH.
Qed.

(** X20: the engine makes up no text: what [summarize_in_chunks] or
    [summarize_text] returns is the sentinel or an answer of the
    oracle. *)
Theorem summary_is_sentinel_or_answer fuel text cs dm mn im fm s y :
  (res (summarize_in_chunks fuel text cs dm mn s) = Ret y ->
   y = sentinel \/ answer y)
  /\ (res (summarize_text fuel text cs im fm s) = Ret y ->
      y = sentinel \/ answer y).
Proof.
  split; [apply summarize_in_chunks_ret|].
  unfold summarize_text.
  destruct (is_empty (strip text)); [intros H; injection H as <-; now left|].
  rewrite res_bind.
  destruct (text_chunks (strip text) cs) as [chunks|]; [|discriminate].
  cbn [lift_value ret res final]; rewrite res_bind.
  destruct (res (chunk_loop chunks im 50 [] s)) as [sums|e]; [|discriminate].
  destruct (is_empty sums); [intros H; injection H as <-; now left|].
  apply summarize_in_chunks_ret.
Qed.





End Engine.

(** ** The length planner and concrete runs *)

(** C1: [determine_max_length] returns
    [min(default_max, max(word_count(text), min_length))], the word
    count being the number of maximal runs of characters that are not
    white space; on "one two three" with 500 and 50 it returns 50. *)
Theorem determine_max_length_spec :
  (forall text default_max min_length,
      determine_max_length text default_max min_length
      = Z.min default_max (Z.max (word_count text) min_length))
  /\ word_count (py "one two three") = 3
  /\ determine_max_length (py "one two three") 500 50 = 50.
Proof.
  split; [|split; reflexivity].
  intros text default_max min_length; unfold determine_max_length.
  now rewrite split_word_count.
Qed.

(** C2 as stated fails: the oracle that answers the one word "summary"
    to every call keeps every answer within 500 words, and on
    "hello world" with [chunk_size = 4] no depth is enough. *)
Lemma few_words_still_diverge :
  (forall s t mx mn do_sample y s',
      const_oracle (py "summary") s t mx mn do_sample = (Some y, s') ->
      word_count y <= 500)
  /\ strip (py "hello world") <> []
  /\ forall fuel,
      res (summarize_in_chunks (const_oracle (py "summary")) fuel
             (py "hello world") 4 500 50 tt) = Fail Diverged.
Proof.
  split; [|split].
  - intros s t mx mn ds y s' H; injection H as <- _.
    vm_compute; discriminate.
  - vm_compute; discriminate.
  - intros fuel.
    apply (@summarize_in_chunks_diverges unit (const_oracle (py "summary"))
             (py "summary") (py "ummar") 115%N 121%N 4).
    all: try reflexivity.
    vm_compute; discriminate.
Qed.

Lemma short_answers_converge_witness :
  2 * (2 + 1) <= 6
  /\ (List.length (strip (py "hello world")) <= 11)%nat
  /\ res (summarize_in_chunks (const_oracle (py "ok")) 11
            (py "hello world") 6 500 50 tt) <> Fail Diverged.
Proof.
  split; [lia|split; [vm_compute; lia|]].
  apply (@short_answers_converge unit (const_oracle (py "ok")) 2 6).
  - lia.
  - lia.
  - intros s' t mx mn' y H; injection H as <-; vm_compute; discriminate.
  - vm_compute; lia.
Defined.

(** C3 fails on the code: with [default_max_length = 30] below
    [min_length = 50], [determine_max_length] gives 30, and the one call
    of [summarize_in_chunks] on "a short text" asks for
    [max_length = 30] with [min_length = 50], under the minimum that the
    claim and the function's own docstring promise. *)
Lemma max_length_below_min_length :
  trace (summarize_in_chunks (const_oracle (py "ok")) 0
           (py "a short text") 1024 30 50 tt)
  = [mkCall (py "a short text") 30 50 false]
  /\ ~ Forall (fun c => call_min_length c <= call_max_length c <= 30)
         (trace (summarize_in_chunks (const_oracle (py "ok")) 0
                   (py "a short text") 1024 30 50 tt)).
Proof.
  split; [reflexivity|].
  intros H; apply Forall_inv in H; vm_compute in H.
  destruct H as [H _]; now apply H.
Qed.


(** C4 as stated fails: on " a" with [chunk_size = 2] the one call
    receives "a", not the input. *)
Lemma call_receives_trimmed_text :
  len (py " a") <= 2
  /\ strip (py " a") <> []
  /\ trace (summarize_in_chunks (const_oracle (py "ok")) 0
              (py " a") 2 500 50 tt)
     = [mkCall (py "a") 50 50 false]
  /\ List.map call_text
       (trace (summarize_in_chunks (const_oracle (py "ok")) 0
                 (py " a") 2 500 50 tt))
     <> [py " a"].
Proof.
  split; [vm_compute; discriminate|].
  split; [vm_compute; discriminate|].
  split; [reflexivity|vm_compute; discriminate].
Qed.

Lemma single_call_on_trimmed_text_witness :
  strip (py " a") <> [] /\ len (py " a") <= 2
  /\ trace (summarize_in_chunks (const_oracle (py "ok")) 0
              (py " a") 2 500 50 tt)
     = [mkCall (strip (py " a"))
               (determine_max_length (strip (py " a")) 500 50) 50 false].
Proof.
  assert (H1 : strip (py " a") <> []) by (vm_compute; discriminate).
  assert (H2 : len (py " a") <= 2) by (vm_compute; discriminate).
  split; [exact H1|split; [exact H2|]].
  exact (proj1 (proj2 (@single_call_on_trimmed_text unit
                         (const_oracle (py "ok")) 0 (py " a") 2 500 50 tt
                         H1 H2))).
Defined.

Lemma chunking_covers_text_witness :
  0 < 4 /\ 4 < len (py "hello world")
  /\ exists chunks,
      text_chunks (py "hello world") 4 = Some chunks
      /\ len chunks = ceil_div (len (py "hello world")) 4
      /\ List.concat chunks = py "hello world".
Proof.
  assert (H1 : 0 < 4) by lia.
  assert (H2 : 4 < len (py "hello world")) by (vm_compute; reflexivity).
  split; [exact H1|split; [exact H2|]].
  destruct (@chunking_covers_text unit (const_oracle (py "ok"))
              (py "hello world") 4 H1 H2)
    as [chunks [Hc [Hn [_ [_ [_ [Hcat _]]]]]]].
  exists chunks; repeat split; assumption.
Defined.

Lemma two_pass_then_delegate_witness :
  strip (py "hello world") <> []
  /\ summarize_text (const_oracle (py "ok")) 3 (py "hello world") 1024 500 500 tt
     = reduce_two_pass (const_oracle (py "ok")) 3 (py "hello world")
                       1024 500 500 tt.
Proof.
  assert (H : strip (py "hello world") <> []) by (vm_compute; discriminate).
  split; [exact H|].
  exact (proj1 (@two_pass_then_delegate unit (const_oracle (py "ok")) 3
                  (py "hello world") 1024 500 500 tt H)).
Defined.

Lemma blank_input_sentinel_witness :
  blank (py "   ") = true
  /\ summarize_in_chunks (const_oracle (py "ok")) 3 (py "   ") 1024 500 50 tt
     = mkRun (Ret sentinel) tt []
  /\ summarize_text (const_oracle (py "ok")) 3 (py "   ") 1024 500 500 tt
     = mkRun (Ret sentinel) tt [].
Proof.
  assert (H : blank (py "   ") = true) by reflexivity.
  split; [exact H|].
  destruct (@blank_input_sentinel unit (const_oracle (py "ok")) 3 (py "   ")
              1024 500 50 500 500 tt H) as [H1 [H2 _]].
  split; assumption.
Defined.

(** C8 fails on the final pass: with an oracle that answers the empty
    string, "hello world" and [chunk_size = 6] give two chunk summaries
    that are empty; joined they are " ", which fits in a chunk and is
    summarized without any test. *)
Theorem final_pass_on_blank_text :
  trace (summarize_in_chunks (const_oracle (py "")) 0
           (py "hello world") 6 500 50 tt)
  = [mkCall (py "hello") 50 50 false;
     mkCall (py "world") 50 50 false;
     mkCall (py " ") 50 50 false]
  /\ Exists (fun c => blank (call_text c) = true)
       (trace (summarize_in_chunks (const_oracle (py "")) 0
                 (py "hello world") 6 500 50 tt)).
Proof.
  split; [reflexivity|].
  do 2 apply Exists_cons_tl; apply Exists_cons_hd; reflexivity.
Qed.

Lemma deterministic_oracle_same_output_witness :
  res (summarize_in_chunks counting_oracle 3 (py "hello world") 6 500 50 0%nat)
  = Ret (py "hel")
  /\ res (summarize_in_chunks counting_oracle 3 (py "hello world") 6 500 50
            0%nat)
     = res (summarize_in_chunks counting_oracle 3 (py "hello world") 6 500 50
              7%nat)
  /\ trace (summarize_in_chunks counting_oracle 3 (py "hello world") 6 500 50
              0%nat)
     = trace (summarize_in_chunks counting_oracle 3 (py "hello world") 6 500 50
                7%nat).
Proof.
  split; [reflexivity|].
  assert (Hdet : forall (s s' : nat) (t : str) (mx mn' : Z),
             fst (counting_oracle s t mx mn' false)
             = fst (counting_oracle s' t mx mn' false))
    by (intros s s' t mx mn'; reflexivity).
  destruct (@deterministic_oracle_same_output nat counting_oracle 3
              (py "hello world") 6 500 50 0%nat 7%nat Hdet)
    as [Hres [Htrace _]].
  split; assumption.
Defined.

(** C10 as stated fails: with [chunk_size = -1] the range of chunk
    starts is empty, no chunk exists, the loop returns no summary and
    [summarize_text] returns the sentinel for a text that is not
    empty. *)
Lemma no_chunk_when_chunk_size_negative :
  strip (py "hello world") <> []
  /\ text_chunks (strip (py "hello world")) (-1) = Some []
  /\ summarize_text (const_oracle (py "ok")) 3 (py "hello world") (-1) 500 500 tt
     = mkRun (Ret sentinel) tt []
  /\ ~ (exists chunks,
          text_chunks (strip (py "hello world")) (-1) = Some chunks
          /\ Exists (fun c => strip c <> []) chunks
          /\ forall chunk_summaries,
              res (chunk_loop (const_oracle (py "ok")) chunks 500 50 [] tt)
              = Ret chunk_summaries ->
              is_empty chunk_summaries = false).
Proof.
  split; [vm_compute; discriminate|].
  split; [reflexivity|split; [reflexivity|]].
  intros [chunks [Hc [He _]]].
  change (text_chunks (strip (py "hello world")) (-1)) with (@Some (list str) [])
    in Hc.
  injection Hc as <-; inversion He.
Qed.

Lemma some_chunk_is_summarized_witness :
  strip (py "hello world") <> [] /\ 0 < 4
  /\ exists chunks,
      text_chunks (strip (py "hello world")) 4 = Some chunks
      /\ Exists (fun c => strip c <> []) chunks.
Proof.
  assert (H1 : strip (py "hello world") <> []) by (vm_compute; discriminate).
  assert (H2 : 0 < 4) by lia.
  split; [exact H1|split; [exact H2|]].
  destruct (@some_chunk_is_summarized unit (const_oracle (py "ok"))
              (py "hello world") 4 500 tt H1 H2) as [chunks [Hc [He _]]].
  exists chunks; split; assumption.
Defined.

(** ** Concrete runs for the further facts *)

Lemma nonblank_answers_nonblank_calls_witness :
  Forall (fun c => blank (call_text c) = false)
         (trace (summarize_in_chunks (const_oracle (py "ok")) 3
                   (py "hello world") 6 500 50 tt)).
Proof.
  refine (proj1 (@nonblank_answers_nonblank_calls unit (const_oracle (py "ok"))
                   3 (py "hello world") 6 500 50 500 500 tt _)).
  intros s' t mx mn' y H; injection H as <-; reflexivity.
Defined.

Lemma zero_chunk_size_raises_witness :
  strip (py "hello world") <> []
  /\ summarize_in_chunks (const_oracle (py "ok")) 3 (py "hello world")
                         0 500 50 tt
     = mkRun (Fail ValueError) tt [].
Proof.
  assert (H : strip (py "hello world") <> []) by (vm_compute; discriminate).
  split; [exact H|].
  exact (proj1 (@zero_chunk_size_raises unit (const_oracle (py "ok")) 3
                  (py "hello world") 500 50 500 500 tt H)).
Defined.

Lemma negative_chunk_size_sentinel_witness :
  -1 < 0 /\ strip (py "hello world") <> []
  /\ summarize_in_chunks (const_oracle (py "ok")) 1 (py "hello world")
                         (-1) 500 50 tt
     = mkRun (Ret sentinel) tt [].
Proof.
  assert (H1 : -1 < 0) by lia.
  assert (H2 : strip (py "hello world") <> []) by (vm_compute; discriminate).
  split; [exact H1|split; [exact H2|]].
  exact (proj1 (@negative_chunk_size_sentinel unit (const_oracle (py "ok")) 0
                  (py "hello world") (-1) 500 50 500 500 tt H1 H2)).
Defined.

Lemma oracle_error_aborts_witness :
  strip (py "hello world") <> [] /\ 0 < 6
  /\ res (summarize_in_chunks failing_oracle 3 (py "hello world") 6 500 50 tt)
     = Fail OracleError
  /\ trace (summarize_in_chunks failing_oracle 3 (py "hello world") 6 500 50 tt)
     = [planned 500 50 (strip (firstn (Z.to_nat 6) (strip (py "hello world"))))].
Proof.
  assert (H1 : strip (py "hello world") <> []) by (vm_compute; discriminate).
  assert (H2 : 0 < 6) by lia.
  split; [exact H1|split; [exact H2|]].
  refine (proj1 (@oracle_error_aborts unit failing_oracle 3 (py "hello world")
                   6 500 50 500 500 tt H1 H2 _)).
  intros mx mn'; reflexivity.
Defined.

Lemma short_text_summarized_twice_witness :
  trace (summarize_text (const_oracle (py "ok")) 3 (py " hello world ")
                        1024 500 500 tt)
  = [planned 500 50 (strip (py " hello world "));
     planned 500 50 (strip (py "ok"))].
Proof.
  refine (proj1 (@short_text_summarized_twice unit (const_oracle (py "ok")) 3
                   (py " hello world ") 1024 500 500 tt (py "ok") _ _ _ _ _)).
  - vm_compute; discriminate.
  - vm_compute; discriminate.
  - reflexivity.
  - vm_compute; discriminate.
  - vm_compute; discriminate.
Defined.

Lemma one_level_calls_witness :
  trace (summarize_in_chunks (const_oracle (py "ok")) 0 (py "hello world")
                             6 500 50 tt)
  = List.map (planned 500 50)
             (List.map strip
                (filter (fun c => negb (blank c)) [py "hello "; py "world"]))
    ++ [planned 500 50 (join (py " ") [py "ok"; py "ok"])].
Proof.
  refine (proj1 (@one_level_calls unit (const_oracle (py "ok")) 0
                   (py "hello world") 6 500 50 tt
                   [py "hello "; py "world"] [py "ok"; py "ok"] _ _ _ _)).
  - vm_compute; reflexivity.
  - reflexivity.
  - reflexivity.
  - vm_compute; discriminate.
Defined.


Lemma plan_ignores_surrounding_space_witness :
  strip (py "  one two three ") <> []
  /\ 1 <= word_count (py "  one two three ").
Proof.
  assert (H : strip (py "  one two three ") <> [])
    by (vm_compute; discriminate).
  split; [exact H|].
  exact (proj1 (proj2 (plan_ignores_surrounding_space
                         (py "  one two three ") 500 50)) H).
Defined.

Lemma existing_files_untouched_witness :
  lookup sample_fs (py "d/c.summary") = Some (File (py "old"))
  /\ lookup (ffs (summarize_folder (const_oracle (py "ok")) (fun _ => true) (fun _ _ => None) 3
                    sample_listing (py "d") sample_fs tt))
            (py "d/c.summary") = Some (File (py "old")).
Proof.
  assert (H : lookup sample_fs (py "d/c.summary") = Some (File (py "old")))
    by reflexivity.
  split; [exact H|].
  exact (@existing_files_untouched unit (const_oracle (py "ok"))
           (fun _ => true) (fun _ _ => None) 3 sample_listing (py "d") sample_fs tt
           (py "d/c.summary") (File (py "old")) H).
Defined.

Lemma second_run_does_nothing_witness :
  fres (summarize_folder (const_oracle (py "ok")) (fun _ => true) (fun _ _ => None) 3
          sample_listing (py "d") sample_fs tt) = None
  /\ ftrace (summarize_folder (const_oracle (py "ok")) (fun _ => true) (fun _ _ => None) 3
               sample_listing (py "d")
               (ffs (summarize_folder (const_oracle (py "ok")) (fun _ => true) (fun _ _ => None)
                       3 sample_listing (py "d") sample_fs tt)) tt) = [].
Proof.
  assert (H : fres (summarize_folder (const_oracle (py "ok")) (fun _ => true) (fun _ _ => None) 3
                      sample_listing (py "d") sample_fs tt) = None)
    by reflexivity.
  split; [exact H|].
  now rewrite (@second_run_does_nothing unit (const_oracle (py "ok"))
                 (fun _ => true) (fun _ _ => None) 3 3 sample_listing (py "d") sample_fs tt tt H).
Defined.

Lemma folder_run_adds_summaries_witness :
  lookup (ffs (summarize_folder (const_oracle (py "ok")) (fun _ => true) (fun _ _ => None) 3
                 sample_listing (py "d") sample_fs tt))
         (py "d/a.summary") = Some (File (py "ok"))
  /\ (lookup sample_fs (py "d/a.summary") = Some (File (py "ok"))
      \/ path_exists sample_fs (py "d/a.summary") = false).
Proof.
  assert (H : lookup (ffs (summarize_folder (const_oracle (py "ok"))
                             (fun _ => true) (fun _ _ => None) 3 sample_listing (py "d")
                             sample_fs tt))
                     (py "d/a.summary") = Some (File (py "ok")))
    by reflexivity.
  split; [exact H|].
  destruct (@folder_run_adds_summaries unit (const_oracle (py "ok"))
              (fun _ => true) (fun _ _ => None) 3 sample_listing (py "d") sample_fs tt
              (py "d/a.summary") (File (py "ok")) H) as [Hold|[Hnew _]];
    [now left|now right].
Defined.

Lemma summary_path_changes_extension_witness :
  replace (py "d/a" ++ py ".txt") (py ".txt") (py ".summary")
  = py "d/a" ++ py ".summary".
Proof.
  apply summary_path_changes_extension.
  intros k Hk.
  destruct k as [|[|[|k]]]; try reflexivity.
  simpl in Hk; lia.
Defined.

Lemma parse_of_saved_annotation_witness :
  parse_annotation_file
    (save_annotation
       [mkSegment (py "0:00:00") (py "0:00:04.500000") (py " Hello there.");
        mkSegment (py "0:00:04.500000") (py "0:00:09") (py " General Kenobi.")])
  = py "Hello there. General Kenobi.".
Proof.
  rewrite parse_of_saved_annotation; [reflexivity|].
  repeat constructor.
Defined.

Lemma chunking_edge_cases_witness :
  py "hello" <> [] /\ len (py "hello") <= 1024
  /\ text_chunks (py "hello") 1024 = Some [py "hello"].
Proof.
  assert (H1 : py "hello" <> []) by discriminate.
  assert (H2 : len (py "hello") <= 1024) by (vm_compute; discriminate).
  split; [exact H1|split; [exact H2|]].
  exact (proj1 (chunking_edge_cases (py "hello") 1024) H1 H2).
Defined.

Lemma summary_is_sentinel_or_answer_witness :
  res (summarize_in_chunks (const_oracle (py "ok")) 3 (py "hello world")
                           6 500 50 tt) = Ret (py "ok")
  /\ (py "ok" = sentinel \/ answer (const_oracle (py "ok")) (py "ok")).
Proof.
  assert (H : res (summarize_in_chunks (const_oracle (py "ok")) 3
                     (py "hello world") 6 500 50 tt) = Ret (py "ok"))
    by reflexivity.
  split; [exact H|].
  exact (proj1 (@summary_is_sentinel_or_answer unit (const_oracle (py "ok")) 3
                  (py "hello world") 6 500 50 500 500 tt (py "ok")) H).
Defined.

Lemma parsed_text_is_trimmed_witness :
  is_empty (strip (parse_annotation_file
                     (py "Start: 0:00:00 - End: 0:00:02" ++ [10%N; 10%N])))
  = true.
Proof.
  apply (proj2 (parsed_text_is_trimmed
                  (py "Start: 0:00:00 - End: 0:00:02" ++ [10%N; 10%N]))).
  apply Forall_forall; intros line Hline.
  change (In line [py "Start: 0:00:00 - End: 0:00:02" ++ [10%N]; [10%N]])
    in Hline.
  destruct Hline as [<-|[<-|[]]]; [right|left]; reflexivity.
Defined.
